(** * bpass: the blob store ([blobformat/format.go])

    A shallow embedding of the in-memory credential store: the dynamically
    typed JSON-like values the store holds, the accessors of a single entry
    ([Blob]), the snapshot engine and the setters of the store ([Blobs]),
    followed by the properties of the store that the specification states. *)

From Stdlib Require Import ZArith Ascii String List Bool Lia.
From stdpp Require Import base option list gmap fin_maps strings pretty.

Set Warnings "-register-all".
#[local] Open Scope string_scope.
#[local] Open Scope list_scope.
#[local] Open Scope Z_scope.

(** ** Values

    The store is a [map[string]interface{}]; what an [interface{}] can hold
    after decoding JSON, plus the [int64] that [touchUpdated] writes. A
    [float64] decoded from a JSON number is finite, so it is carried as the
    dyadic rational [m * 2^e]. A nil slice and an empty slice are both
    [VSlice []]. *)

Inductive value : Type :=
  | VNil
  | VBool (b : bool)
  | VString (s : string)
  | VFloat (m e : Z)
  | VInt (n : Z)
  | VSlice (l : list value)
  | VMap (m : gmap string value).

(** [type Blobs map[string]interface{}] and the [B] field of a [Blob]. *)
Abbreviation Blobs := (gmap string value).
Abbreviation Fields := (gmap string value).

Definition keyUser : string := "user".
Definition keyPass : string := "pass".
Definition keyTwoFactor : string := "twofactor".
Definition keyNotes : string := "notes".
Definition keyLabels : string := "labels".
Definition keyUpdated : string := "updated".
Definition keySnapshots : string := "snapshots".

(** [protectedKeys]: keys that cannot be set to a string value. *)
Definition protectedKeys : list string :=
  [keyTwoFactor; keyNotes; keyUpdated; keyLabels; keySnapshots].

(** [type Blob struct { Name string; B map[string]interface{} }] *)
Record Blob : Type := mkBlob { Name : string; B : Fields }.

(** Indexing a Go map without the [ok] result: the zero value [nil] when the
    key is absent. *)
Definition index (m : Fields) (k : string) : value := default VNil (m !! k).

(** ** Strings

    [strings.ToLower], [strings.Split] with the separator ["/"], read
    character by character (the ASCII letters are the ones that fold). *)

Definition lowerAscii (c : ascii) : ascii :=
  let n := nat_of_ascii c in
  if (Nat.leb 65 n && Nat.leb n 90)%bool then ascii_of_nat (n + 32) else c.

Fixpoint ToLower (s : string) : string :=
  match s with
  | EmptyString => EmptyString
  | String c s' => String (lowerAscii c) (ToLower s')
  end.

Definition slash : ascii := "/"%char.

Fixpoint Split (s : string) : list string :=
  match s with
  | EmptyString => [EmptyString]
  | String c s' =>
      if Ascii.eqb c slash then EmptyString :: Split s'
      else match Split s' with
           | h :: t => String c h :: t
           | [] => [String c EmptyString]
           end
  end.

Fixpoint chars (s : string) : list ascii :=
  match s with
  | EmptyString => []
  | String c s' => c :: chars s'
  end.

(** ** Panics, errors and the store monad

    A Go method of [Blobs] runs against the one mutable store. It either
    returns or panics; in both cases the store is left as the statements
    executed so far have made it. *)

Inductive panic : Type :=
  | EntryNotFound (name : string)
  | EntryBadFormat (name : string)
  | ProtectedKey (p : string)
  | TypeAssertion.

Inductive error : Type :=
  | ErrUriParse
  | ErrNotTotp (name : string)
  | ErrGenerate
  | ErrSliceFormat (keyname name : string)
  | ErrSliceElemFormat (keyname : string) (i : nat)
  | ErrNoSnapshots (name : string)
  | ErrSnapshotsFormat (name : string)
  | ErrSnapshotRange (name : string) (n : Z) (given : Z)
  | ErrSnapshotElemFormat (i : Z) (name : string).

Inductive outcome (A : Type) : Type :=
  | Returned (a : A)
  | Panicked (p : panic).
Arguments Returned {A} a.
Arguments Panicked {A} p.

Definition Go (A : Type) : Type := Blobs → outcome A * Blobs.

Definition ret {A} (a : A) : Go A := λ b, (Returned a, b).
Definition raise {A} (p : panic) : Go A := λ b, (Panicked p, b).
Definition bind {A C} (m : Go A) (k : A → Go C) : Go C :=
  λ b, match m b with
       | (Returned a, b') => k a b'
       | (Panicked p, b') => (Panicked p, b')
       end.

Declare Scope go_scope.
Delimit Scope go_scope with go.
Notation "x <- m ;;; k" := (bind m (λ x, k))
  (at level 20, m at level 99, k at level 200, only parsing) : go_scope.
Notation "m ;;; k" := (bind m (λ _, k))
  (at level 100, k at level 200, only parsing, right associativity) : go_scope.

(** ** Reading an entry *)

(** [get] retrieves an entire object without a copy and panics if name is not
    found or if the data structure is the wrong type. *)
Definition get (name : string) : Go Fields :=
  λ b, match b !! name with
       | None => (Panicked (EntryNotFound name), b)
       | Some (VMap mpintf) => (Returned mpintf, b)
       | Some _ => (Panicked (EntryBadFormat name), b)
       end.

Definition Get (name : string) : Go Blob :=
  (obj <- get name ;;; ret (mkBlob name obj))%go.

(** [User]: the empty string if not set, else an unchecked [user.(string)]. *)
Definition User (b : Blob) : outcome string :=
  match B b !! keyUser with
  | None => Returned ""
  | Some (VString s) => Returned s
  | Some _ => Panicked TypeAssertion
  end.

Definition Pass (b : Blob) : outcome string :=
  match B b !! keyPass with
  | None => Returned ""
  | Some (VString s) => Returned s
  | Some _ => Panicked TypeAssertion
  end.

Fixpoint stringsFrom (keyname : string) (i : nat) (l : list value)
  : list string * option error :=
  match l with
  | [] => ([], None)
  | VString s :: l' =>
      match stringsFrom keyname (S i) l' with
      | (out, None) => (s :: out, None)
      | (_, Some e) => ([], Some e)
      end
  | _ :: _ => ([], Some (ErrSliceElemFormat keyname i))
  end.

Definition getSlice (b : Blob) (keyname : string) : list string * option error :=
  match index (B b) keyname with
  | VNil => ([], None)
  | VSlice intfSlice => stringsFrom keyname 0 intfSlice
  | _ => ([], Some (ErrSliceFormat keyname (Name b)))
  end.

Definition Notes (b : Blob) := getSlice b keyNotes.
Definition Labels (b : Blob) := getSlice b keyLabels.

(** [int64(float)]: truncation toward zero (for values in range). *)
Definition truncFloat (m e : Z) : Z :=
  if 0 <=? e then m * 2 ^ e else Z.quot m (2 ^ (- e)).

(** [Updated]: Unix seconds of the timestamp, [None] for the zero
    [time.Time] returned when the field is not set or invalid. *)
Definition Updated (b : Blob) (name : string) : option Z :=
  match index (B b) keyUpdated with
  | VInt n => Some n
  | VFloat m e => Some (truncFloat m e)
  | _ => None
  end.

Definition len (l : list value) : Z := Z.of_nat (length l).

(** [NSnapshots] returns the number of snapshots saved for the blob. *)
Definition NSnapshots (b : Blob) : Z * option error :=
  match index (B b) keySnapshots with
  | VNil => (0, None)
  | VSlice snaps => (len snaps, None)
  | _ => (0, Some (ErrSnapshotsFormat (Name b)))
  end.

Definition zeroBlob : Blob := mkBlob "" ∅.

(** [Snapshot] fetches a snapshot where [idx] is "how many snapshots ago";
    the 0th is always the most recent. *)
Definition Snapshot (b : Blob) (idx : Z) : Blob * option error :=
  match index (B b) keySnapshots with
  | VNil => (zeroBlob, Some (ErrNoSnapshots (Name b)))
  | VSlice snaps =>
      if ((idx <? 0) || (idx >=? len snaps))%bool
      then (zeroBlob, Some (ErrSnapshotRange (Name b) (len snaps) idx))
      else
        let idx := len snaps - 1 - idx in
        match snaps !! Z.to_nat idx with
        | Some (VMap snap) =>
            (mkBlob (Name b +:+ ":snap" +:+ pretty idx) snap, None)
        | _ => (zeroBlob, Some (ErrSnapshotElemFormat idx (Name b)))
        end
  | _ => (zeroBlob, Some (ErrSnapshotsFormat (Name b)))
  end.

(** ** Writing an entry

    A [Blob] obtained from [Get] shares its map [B] with the store: what the
    methods below write through [b.B] is written into the store's entry
    under [Name b]. [live] reads that shared map as it currently is. *)

Definition live (b : Blob) (st : Blobs) : Fields :=
  match st !! Name b with
  | Some (VMap m) => m
  | _ => B b
  end.

(** [b.B[k] = v] *)
Definition assign (b : Blob) (k : string) (v : value) : Go unit :=
  λ st, (Returned tt, <[Name b := VMap (<[k := v]> (live b st))]> st).

(** [touchUpdated] refreshes the updated timestamp; [now] is the reading of
    [time.Now().Unix()]. *)
Definition touchUpdated (now : Z) (b : Blob) : Go unit :=
  assign b keyUpdated (VInt now).

(** [snapshot]: a copy of the map excluding the 'snapshots' key; only
    strings, numbers and slices are copied. *)
Definition copyField (k : string) (v : value) : option value :=
  if String.eqb k keySnapshots then None
  else match v with
       | VString val => Some (VString val)
       | VFloat m e => Some (VFloat m e)
       | VInt val => Some (VInt val)
       | VSlice val => Some (VSlice val)
       | _ => None
       end.

Definition snapshot (m : Fields) : Fields := map_imap copyField m.

(** The slice [snaps] that [addSnapshot] appends to. The result [ok] of the
    type assertion is not looked at: a value that is not a slice leaves
    [snaps] nil. *)
Definition priorSnaps (m : Fields) : list value :=
  match m !! keySnapshots with
  | None => []
  | Some (VSlice snaps) => snaps
  | Some _ => []
  end.

(** [addSnapshot] adds a new snapshot containing all the current values into
    the blob's snapshot list. *)
Definition addSnapshot (b : Blob) : Go unit :=
  λ st,
    let m := live b st in
    let snaps := priorSnaps m in
    assign b keySnapshots (VSlice (snaps ++ [VMap (snapshot m)])) st.

(** The loop of [Set] over [protectedKeys]. *)
Fixpoint rejectProtected (key : string) (ps : list string) : Go unit :=
  match ps with
  | [] => ret tt
  | p :: ps' =>
      if String.eqb key p then raise (ProtectedKey p)
      else rejectProtected key ps'
  end.

(** [Blobs.Set]: set the key in name to value. The last statement of the
    source is [blob.B[name] = value]. *)
Definition Set_ (now : Z) (name key val : string) : Go unit :=
  (blob <- Get name ;;;
   let key := ToLower key in
   rejectProtected key protectedKeys ;;;
   addSnapshot blob ;;;
   touchUpdated now blob ;;;
   assign blob name (VString val))%go.

(** [uglyConversion]: a [[]string] as a [[]interface{}]. *)
Definition uglyConversion (l : list string) : value := VSlice (VString <$> l).

Definition SetNotes (now : Z) (name : string) (notes : list string) : Go unit :=
  (blob <- Get name ;;;
   touchUpdated now blob ;;;
   assign blob keyNotes (uglyConversion notes))%go.

Definition SetLabels (now : Z) (name : string) (labels : list string) : Go unit :=
  (blob <- Get name ;;;
   touchUpdated now blob ;;;
   assign blob keyLabels (uglyConversion labels))%go.

(** ** Two-factor seeds

    The OTP and URL libraries are outside the repository; the store uses them
    through the operations collected here. *)

Record otpLibrary : Type := mkOtpLibrary {
  Key : Type;
  (** [otp.NewKeyFromURL], [None] when it returns an error *)
  NewKeyFromURL : string → option Key;
  (** [key.Type()] and [key.Secret()] *)
  KeyType : Key → string;
  KeySecret : Key → string;
  (** [totp.GenerateCode(secret, t)], [None] when it returns an error *)
  GenerateCode : string → Z → option string;
  (** [url.PathEscape] and the escaping done by [url.Values.Encode] *)
  PathEscape : string → string;
  QueryEscape : string → string
}.

Section TwoFactorSeeds.
Context (lib : otpLibrary).

(** The URI that [SetTwofactor] validates and stores. *)
Definition seedURI (name uriOrKey : string) : string :=
  if String.prefix "otpauth://" uriOrKey then uriOrKey
  else "otpauth://totp/" +:+ PathEscape lib ("upass:" +:+ name)
       +:+ "?" +:+ "secret=" +:+ QueryEscape lib uriOrKey.

(** [SetTwofactor] loads the URI before setting the value; the returned
    [option error] is the Go [error] result. *)
Definition SetTwofactor (now : Z) (name uriOrKey : string) : Go (option error) :=
  (blob <- Get name ;;;
   let uri := seedURI name uriOrKey in
   match NewKeyFromURL lib uri with
   | None => ret (Some ErrUriParse)
   | Some _ =>
       (addSnapshot blob ;;;
        touchUpdated now blob ;;;
        assign blob keyTwoFactor (VString uri) ;;;
        ret None)
   end)%go.

(** [TwoFactor] returns an authentication code if a secret key has been
    set. [now] is the reading of [time.Now().UTC()]. *)
Definition TwoFactor (now : Z) (b : Blob) : outcome (string * option error) :=
  match index (B b) keyTwoFactor with
  | VNil => Returned ("", None)
  | VString twoFactorURI =>
      match NewKeyFromURL lib twoFactorURI with
      | None => Returned ("", Some ErrUriParse)
      | Some key =>
          if negb (String.eqb (KeyType lib key) "totp")
          then Returned ("", Some (ErrNotTotp (Name b)))
          else match GenerateCode lib (KeySecret lib key) now with
               | None => Returned ("", Some ErrGenerate)
               | Some code => Returned (code, None)
               end
      end
  | _ => Panicked TypeAssertion
  end.
End TwoFactorSeeds.

(** *** A small instance of the library

    It reads of a URI what the store looks at: the seed type is the host of
    the URI, as in [Key.Type], and a host with a space in it does not parse.
    It serves to run [SetTwofactor] and [TwoFactor] on concrete inputs. *)

Fixpoint dropPrefix (p s : string) : option string :=
  match p, s with
  | EmptyString, _ => Some s
  | String a p', String c s' => if Ascii.eqb a c then dropPrefix p' s' else None
  | String _ _, EmptyString => None
  end.

Definition hostOf (rest : string) : string := hd "" (Split rest).

Fixpoint hasSpace (s : string) : bool :=
  match s with
  | EmptyString => false
  | String c s' => (Ascii.eqb c " "%char || hasSpace s')%bool
  end.

Definition sampleParse (uri : string) : option string :=
  match dropPrefix "otpauth://" uri with
  | None => None
  | Some rest =>
      let host := hostOf rest in
      if hasSpace host then None else Some host
  end.

Definition sampleLibrary : otpLibrary :=
  {| Key := string;
     NewKeyFromURL := sampleParse;
     KeyType := λ host, host;
     KeySecret := λ _, "";
     GenerateCode := λ _ _, Some "000000";
     PathEscape := λ s, s;
     QueryEscape := λ s, s |}.

(** ** Search *)

(** *** Runes

    [fuzzy.MatchFold] compares the two strings rune by rune, as a Go [range]
    over a string yields them: a rune is a code point decoded from UTF-8,
    and a byte that does not start a well-formed sequence yields the
    replacement rune U+FFFD and is passed over alone. *)

Definition rune : Type := Z.

Definition RuneError : rune := 65533.

Definition byteOf (c : ascii) : Z := Z.of_N (N_of_ascii c).

Definition inRange (lo hi b : Z) : bool := ((lo <=? b) && (b <=? hi))%bool.

(** A continuation byte, [10xxxxxx]. *)
Definition cont (b : Z) : bool := inRange 128 191 b.

(** The second byte of a three-byte sequence: no overlong form after [E0],
    no surrogate after [ED]. *)
Definition second3 (b0 b1 : Z) : bool :=
  if b0 =? 224 then inRange 160 191 b1
  else if b0 =? 237 then inRange 128 159 b1
  else cont b1.

(** The second byte of a four-byte sequence: no overlong form after [F0],
    nothing above U+10FFFF after [F4]. *)
Definition second4 (b0 b1 : Z) : bool :=
  if b0 =? 240 then inRange 144 191 b1
  else if b0 =? 244 then inRange 128 143 b1
  else cont b1.

Fixpoint decodeRunes (l : list Z) : list rune :=
  match l with
  | [] => []
  | b0 :: l1 =>
      if b0 <? 128 then b0 :: decodeRunes l1
      else
        match l1 with
        | [] => RuneError :: decodeRunes l1
        | b1 :: l2 =>
            if (inRange 194 223 b0 && cont b1)%bool
            then ((b0 - 192) * 64 + (b1 - 128)) :: decodeRunes l2
            else
              match l2 with
              | [] => RuneError :: decodeRunes l1
              | b2 :: l3 =>
                  if (inRange 224 239 b0 && second3 b0 b1 && cont b2)%bool
                  then ((b0 - 224) * 4096 + (b1 - 128) * 64 + (b2 - 128))
                       :: decodeRunes l3
                  else
                    match l3 with
                    | [] => RuneError :: decodeRunes l1
                    | b3 :: l4 =>
                        if (inRange 240 244 b0 && second4 b0 b1
                            && cont b2 && cont b3)%bool
                        then ((b0 - 240) * 262144 + (b1 - 128) * 4096
                              + (b2 - 128) * 64 + (b3 - 128))
                             :: decodeRunes l4
                        else RuneError :: decodeRunes l1
                    end
              end
        end
  end.

Definition runes (s : string) : list rune := decodeRunes (byteOf <$> chars s).

(** Lower-casing on the ASCII runes, where [unicode.ToLower] is the map of
    [A-Z] to [a-z]. *)
Definition lowerRune (r : rune) : rune :=
  if inRange 65 90 r then r + 32 else r.

Section Search.
(** [unicode.ToLower], the case folding of a rune; its tables are outside
    the repository. *)
Context (toLower : rune → rune).

(** Modelled from the spec: [fuzzy.MatchFold] belongs to the fuzzysearch
    library, which is not part of the repository. The specification asks that
    every character of the query segment appears, in order, within the
    candidate segment, case-folded; the scan below consumes the candidate
    from the left, taking the first occurrence of each query character. *)
Fixpoint matchRunes (source target : list rune) : bool :=
  match target with
  | [] => match source with [] => true | _ :: _ => false end
  | r2 :: target' =>
      match source with
      | [] => true
      | r1 :: source' =>
          if toLower r1 =? toLower r2
          then matchRunes source' target'
          else matchRunes source target'
      end
  end.

Definition MatchFold (source target : string) : bool :=
  matchRunes (runes source) (runes target).

(** The inner loop of [Find]: [fragments[j]] is matched against
    [keyFrags[i + j]]. The source indexes [keyFrags] only after checking that
    both slices have the same length, so the index is in range there. *)
Fixpoint fragmentsMatch (i : nat) (fragments keyFrags : list string) : bool :=
  match fragments with
  | [] => true
  | f :: rest =>
      match keyFrags !! i with
      | Some kf =>
          if MatchFold f kf then fragmentsMatch (S i) rest keyFrags else false
      | None => false
      end
  end.

(** The body of the loop over the keys: is [k] appended to [names]? *)
Definition keyMatches (fragments : list string) (k : string) : bool :=
  let keyFrags := Split k in
  if negb (Nat.eqb (length keyFrags) (length fragments)) then false
  else fragmentsMatch 0 fragments keyFrags.

(** [Find] searches names of entries using fuzzy search and breaks on [/].
    Go leaves the order of [range] over a map open; the keys are visited
    here in the order of [map_to_list]. *)
Definition Find (b : Blobs) (search : string) : list string :=
  let fragments := Split search in
  List.filter (keyMatches fragments) (map_to_list b).*1.

(** The case-folded subsequence relation of the specification. *)
Definition fuzzySubsequence (query candidate : string) : Prop :=
  (toLower <$> runes query) `sublist_of` (toLower <$> runes candidate).

(** What is known of the folding without its tables: on the ASCII runes it
    lower-cases the letters and changes nothing else. *)
Definition foldsAscii : Prop :=
  ∀ r : rune, 0 ≤ r < 128 → toLower r = lowerRune r.

End Search.

(** ** Auxiliary definitions for the properties *)

(** The entry as the three writes of [Set_] leave it. *)
Definition afterSet (now : Z) (name val : string) (m : Fields) : Fields :=
  <[name := VString val]>
    (<[keyUpdated := VInt now]>
       (<[keySnapshots := VSlice (priorSnaps m ++ [VMap (snapshot m)])]> m)).

(** The entry as the two writes of [SetNotes] or [SetLabels] leave it. *)
Definition afterList (now : Z) (k : string) (l : list string) (m : Fields) : Fields :=
  <[k := uglyConversion l]> (<[keyUpdated := VInt now]> m).

(** The entry as the three writes of a successful [SetTwofactor] leave it. *)
Definition afterTwoFactor (now : Z) (uri : string) (m : Fields) : Fields :=
  <[keyTwoFactor := VString uri]>
    (<[keyUpdated := VInt now]>
       (<[keySnapshots := VSlice (priorSnaps m ++ [VMap (snapshot m)])]> m)).

(** The value kinds by which the specification describes a snapshot: text,
    integer (a JSON number arrives as a [float64]) and list of text. *)
Definition isText (v : value) : bool :=
  match v with VString _ => true | _ => false end.

Definition isInteger (v : value) : bool :=
  match v with VInt _ | VFloat _ _ => true | _ => false end.

Definition isTextList (v : value) : bool :=
  match v with VSlice l => forallb isText l | _ => false end.

Definition recordedKind (v : value) : bool :=
  (isText v || isInteger v || isTextList v)%bool.

(** The kinds for which [snapshot] has a case: any slice is copied, whatever
    its elements are. *)
Definition copiedKind (v : value) : bool :=
  match v with
  | VString _ | VFloat _ _ | VInt _ | VSlice _ => true
  | _ => false
  end.

(** The contents of a snapshot as the specification words them. *)
Definition recordsExactly (kind : value → bool) (m : Fields) : Prop :=
  ∀ k v, snapshot m !! k = Some v
         ↔ k ≠ keySnapshots ∧ m !! k = Some v ∧ kind v = true.

(** The segments of a name as the specification speaks of them: the
    non-empty list of pieces without [/] that, put together again with [/]
    between them, give the name. *)
Fixpoint joinSlash (segs : list string) : string :=
  match segs with
  | [] => EmptyString
  | seg :: rest =>
      match rest with
      | [] => seg
      | _ :: _ => seg +:+ String slash (joinSlash rest)
      end
  end.

Definition segmentsOf (s : string) (segs : list string) : Prop :=
  segs ≠ [] ∧ joinSlash segs = s ∧ Forall (λ seg, slash ∉ chars seg) segs.

(** Strings, and stores with names, of ASCII runes only. *)
Definition asciiOnly (s : string) : bool :=
  forallb (inRange 0 127) (runes s).

Definition asciiNames (b : Blobs) : bool :=
  forallb (λ k, forallb asciiOnly (Split k)) (map_to_list b).*1.

(** A store with the single, empty entry ["e"]. *)
Definition emptyEntryStore : Blobs := {[ "e" := VMap ∅ ]}.

(** An entry whose field [archive] is a list holding one (empty) object. *)
Definition archiveEntry : Fields := {[ "archive" := VSlice [VMap ∅] ]}.

(** A store whose single entry is named ["snapshots"], without and with a
    history that is not a list. *)
Definition snapshotsNamedStore : Blobs := {[ "snapshots" := VMap ∅ ]}.
Definition strayHistory : Fields := {[ "snapshots" := VString "junk" ]}.
Definition strayHistoryStore : Blobs := {[ "snapshots" := VMap strayHistory ]}.
Definition strayHistoryEntryStore : Blobs := {[ "e" := VMap strayHistory ]}.

(** The three names of the specification's search example. *)
Definition searchStore : Blobs :=
  <["abcx/cdy" := VMap ∅]> (<["abcx" := VMap ∅]> {[ "zz/cdy" := VMap ∅ ]}).

(** Names with letters of both cases. *)
Definition caseStore : Blobs :=
  <["Work/EMail" := VMap ∅]> (<["work/bank" := VMap ∅]> {[ "HOME" := VMap ∅ ]}).

(** A name of two runes that are not ASCII, of two bytes each. *)
Definition accentStore : Blobs := {[ "ç©" := VMap ∅ ]}.

(** A library whose code generator refuses every secret. *)
Definition refusingLibrary : otpLibrary :=
  {| Key := string;
     NewKeyFromURL := sampleParse;
     KeyType := λ host, host;
     KeySecret := λ _, "";
     GenerateCode := λ _ _, None;
     PathEscape := λ s, s;
     QueryEscape := λ s, s |}.

(** What a setter may do to the store: nothing, or replace the object
    stored under [name] by another object. *)
Definition touchesOnly (name : string) (st st' : Blobs) : Prop :=
  st' = st
  ∨ ∃ m m' : Fields, st !! name = Some (VMap m) ∧ st' = <[name := VMap m']> st.

(** An entry with one snapshot, and the store holding it under ["e"]. *)
Definition oneSnapshotEntry : Fields :=
  {[ "snapshots" := VSlice [VMap {[ "user" := VString "old" ]}] ]}.
Definition oneSnapshotStore : Blobs := {[ "e" := VMap oneSnapshotEntry ]}.

(** An entry whose notes hold a number after a text. *)
Definition mixedNotesEntry : Fields :=
  {[ "notes" := VSlice [VString "a"; VInt 1; VString "b"] ]}.

(** An entry with a time-based seed stored. *)
Definition totpEntry : Fields :=
  {[ "twofactor" := VString "otpauth://totp/acct?secret=AB" ]}.

(** * Properties *)

(** ** Running the setters on an existing entry *)

Lemma Get_existing (st : Blobs) name (m : Fields) :
  st !! name = Some (VMap m) → Get name st = (Returned (mkBlob name m), st).
Proof. intros H. unfold Get, get, bind, ret. now rewrite H. Qed.

Lemma live_insert (st : Blobs) name (m0 m : Fields) :
  live (mkBlob name m0) (<[name := VMap m]> st) = m.
Proof. unfold live; simpl. now rewrite lookup_insert_eq. Qed.

Lemma live_existing (st : Blobs) name (m : Fields) :
  st !! name = Some (VMap m) → live (mkBlob name m) st = m.
Proof. intros H. unfold live; simpl. now rewrite H. Qed.

Lemma rejectProtected_pass key ps (st : Blobs) :
  key ∉ ps → rejectProtected key ps st = (Returned tt, st).
Proof.
  induction ps as [|p ps IH]; intros Hnot; simpl; [reflexivity|].
  apply not_elem_of_cons in Hnot as [Hne Hnot].
  destruct (String.eqb_spec key p) as [->|_]; [contradiction|].
  now apply IH.
Qed.

Lemma rejectProtected_hit key ps (st : Blobs) :
  key ∈ ps → rejectProtected key ps st = (Panicked (ProtectedKey key), st).
Proof.
  induction ps as [|p ps IH]; intros Hin; simpl.
  - now apply elem_of_nil in Hin.
  - destruct (String.eqb_spec key p) as [->|Hne]; [reflexivity|].
    apply elem_of_cons in Hin as [Heq|Hin]; [contradiction|]. now apply IH.
Qed.

Lemma Set_run now (st : Blobs) name (m : Fields) key val :
  st !! name = Some (VMap m) →
  ToLower key ∉ protectedKeys →
  Set_ now name key val st
  = (Returned tt, <[name := VMap (afterSet now name val m)]> st).
Proof.
  intros Hm Hkey. unfold Set_, bind.
  rewrite (Get_existing _ _ _ Hm), (rejectProtected_pass _ _ _ Hkey).
  unfold addSnapshot, touchUpdated, assign, afterSet; cbn [Name].
  rewrite (live_existing _ _ _ Hm), !live_insert.
  now rewrite !insert_insert_eq.
Qed.

Lemma Set_run_protected now (st : Blobs) name (m : Fields) key val :
  st !! name = Some (VMap m) →
  ToLower key ∈ protectedKeys →
  Set_ now name key val st = (Panicked (ProtectedKey (ToLower key)), st).
Proof.
  intros Hm Hkey. unfold Set_, bind.
  now rewrite (Get_existing _ _ _ Hm), (rejectProtected_hit _ _ _ Hkey).
Qed.

Lemma SetNotes_run now (st : Blobs) name (m : Fields) notes :
  st !! name = Some (VMap m) →
  SetNotes now name notes st
  = (Returned tt, <[name := VMap (afterList now keyNotes notes m)]> st).
Proof.
  intros Hm. unfold SetNotes, bind. rewrite (Get_existing _ _ _ Hm).
  unfold touchUpdated, assign, afterList; cbn [Name].
  rewrite (live_existing _ _ _ Hm), !live_insert.
  now rewrite !insert_insert_eq.
Qed.

Lemma SetLabels_run now (st : Blobs) name (m : Fields) labels :
  st !! name = Some (VMap m) →
  SetLabels now name labels st
  = (Returned tt, <[name := VMap (afterList now keyLabels labels m)]> st).
Proof.
  intros Hm. unfold SetLabels, bind. rewrite (Get_existing _ _ _ Hm).
  unfold touchUpdated, assign, afterList; cbn [Name].
  rewrite (live_existing _ _ _ Hm), !live_insert.
  now rewrite !insert_insert_eq.
Qed.

Lemma protected_keys_distinct key :
  key ∉ protectedKeys →
  key ≠ keyTwoFactor ∧ key ≠ keyNotes ∧ key ≠ keyUpdated
  ∧ key ≠ keyLabels ∧ key ≠ keySnapshots.
Proof. unfold protectedKeys. rewrite !not_elem_of_cons. tauto. Qed.

(** ** The generic setter *)

(** C7: with an existing entry and a key whose lower-cased form is one of
    the protected keys, [Set_] stops with the protected-key panic and the
    store, hence every field of the entry with its [updated] stamp and its
    snapshots, is what it was. *)
Theorem Set_protected_key_rejected now (st : Blobs) name (m : Fields) key val :
  st !! name = Some (VMap m) →
  ToLower key ∈ protectedKeys →
  Set_ now name key val st = (Panicked (ProtectedKey (ToLower key)), st).
Proof. apply Set_run_protected. Qed.

Lemma Set_protected_key_rejected_witness :
  emptyEntryStore !! "e" = Some (VMap ∅)
  ∧ ToLower "Notes" ∈ protectedKeys
  ∧ Set_ 100 "e" "Notes" "x" emptyEntryStore
    = (Panicked (ProtectedKey "notes"), emptyEntryStore).
Proof.
  split; [reflexivity|]. split; [compute_done|].
  apply (Set_protected_key_rejected 100 emptyEntryStore "e" ∅ "Notes" "x");
    [reflexivity | compute_done].
Defined.

(** C1 (the code departs from it): on an existing entry and a key that is
    not protected, [Set_] returns, but the value is stored under the NAME OF
    THE ENTRY; the field under the lower-cased key keeps what it held before
    whenever that key differs from the name. *)
Theorem Set_writes_under_entry_name now (st : Blobs) name (m : Fields) key val :
  st !! name = Some (VMap m) →
  ToLower key ∉ protectedKeys →
  ∃ m' : Fields,
    Set_ now name key val st = (Returned tt, <[name := VMap m']> st)
    ∧ m' !! name = Some (VString val)
    ∧ (ToLower key ≠ name → m' !! ToLower key = m !! ToLower key).
Proof.
  intros Hm Hkey. exists (afterSet now name val m).
  split; [now apply Set_run|]. unfold afterSet.
  split; [apply lookup_insert_eq|]. intros Hne.
  destruct (protected_keys_distinct _ Hkey) as (_ & _ & Hu & _ & Hs).
  now rewrite !lookup_insert_ne by congruence.
Qed.

Lemma Set_writes_under_entry_name_witness :
  emptyEntryStore !! "e" = Some (VMap ∅)
  ∧ (ToLower "user" ∉ protectedKeys)
  ∧ ∃ m' : Fields,
      Set_ 100 "e" "user" "a" emptyEntryStore
      = (Returned tt, <["e" := VMap m']> emptyEntryStore)
      ∧ m' !! "e" = Some (VString "a")
      ∧ (ToLower "user" ≠ "e" → m' !! ToLower "user" = (∅ : Fields) !! ToLower "user").
Proof.
  split; [reflexivity|]. split; [compute_done|].
  apply (Set_writes_under_entry_name 100 emptyEntryStore "e" ∅ "user" "a");
    [reflexivity | compute_done].
Defined.

(** ** History *)

Lemma priorSnaps_afterSet now name val (m : Fields) :
  name ≠ keySnapshots →
  priorSnaps (afterSet now name val m) = priorSnaps m ++ [VMap (snapshot m)].
Proof.
  intros Hne. unfold priorSnaps at 1, afterSet.
  rewrite lookup_insert_ne by congruence.
  rewrite lookup_insert_ne by discriminate.
  now rewrite lookup_insert_eq.
Qed.

Lemma index_snapshots_afterSet now name val (m : Fields) :
  name ≠ keySnapshots →
  index (afterSet now name val m) keySnapshots
  = VSlice (priorSnaps m ++ [VMap (snapshot m)]).
Proof.
  intros Hne. unfold index, afterSet.
  rewrite lookup_insert_ne by congruence.
  rewrite lookup_insert_ne by discriminate.
  now rewrite lookup_insert_eq.
Qed.

Lemma snapshot_lookup (m : Fields) k :
  snapshot m !! k = m !! k ≫= copyField k.
Proof. unfold snapshot. apply map_lookup_imap. Qed.

(** C3 (the code departs from it): on an entry without snapshots, two calls
    of [Set_] for the key ["user"] leave two snapshots, and snapshot 0 is
    the state before the second call; but in that state the value ["a"] sits
    under the entry's name, and the user field is the one the entry had at
    the start (the empty string when it had none). *)
Theorem Set_twice_history now1 now2 (st : Blobs) name (m : Fields) :
  st !! name = Some (VMap m) →
  m !! keySnapshots = None →
  name ≠ keySnapshots →
  name ≠ keyUser →
  ∃ (st1 st2 : Blobs) (blob snap : Blob),
    Set_ now1 name "user" "a" st = (Returned tt, st1)
    ∧ Set_ now2 name "user" "b" st1 = (Returned tt, st2)
    ∧ Get name st2 = (Returned blob, st2)
    ∧ NSnapshots blob = (2, None)
    ∧ Snapshot blob 0 = (snap, None)
    ∧ B snap = snapshot (afterSet now1 name "a" m)
    ∧ B snap !! name = Some (VString "a")
    ∧ B snap !! keyUser = snapshot m !! keyUser
    ∧ (m !! keyUser = None → User snap = Returned "").
Proof.
  intros Hm Hnone Hns Hnu.
  assert (Huser : ToLower "user" ∉ protectedKeys) by compute_done.
  set (m1 := afterSet now1 name "a" m).
  set (m2 := afterSet now2 name "b" m1).
  set (st1 := <[name := VMap m1]> st).
  assert (H1 : st1 !! name = Some (VMap m1)) by apply lookup_insert_eq.
  assert (Hprior : priorSnaps m = []) by (unfold priorSnaps; now rewrite Hnone).
  assert (Hidx : index m2 keySnapshots
                 = VSlice [VMap (snapshot m); VMap (snapshot m1)]).
  { unfold m2. rewrite index_snapshots_afterSet by done.
    unfold m1 at 1. rewrite priorSnaps_afterSet by done. now rewrite Hprior. }
  assert (Hsnapuser : snapshot m1 !! keyUser = snapshot m !! keyUser).
  { rewrite !snapshot_lookup. unfold m1, afterSet.
    rewrite lookup_insert_ne by congruence.
    now rewrite !lookup_insert_ne by discriminate. }
  exists st1, (<[name := VMap m2]> st1), (mkBlob name m2),
    (mkBlob (name +:+ ":snap" +:+ pretty 1) (snapshot m1)).
  split; [now apply Set_run|].
  split; [now apply Set_run|].
  split; [apply Get_existing, lookup_insert_eq|].
  split; [unfold NSnapshots; cbn [B]; now rewrite Hidx|].
  split; [unfold Snapshot; cbn [B Name]; now rewrite Hidx|].
  cbn [B]. split; [reflexivity|].
  split.
  { rewrite snapshot_lookup. unfold m1, afterSet. rewrite lookup_insert_eq.
    cbn. unfold copyField.
    destruct (String.eqb_spec name keySnapshots); [contradiction|reflexivity]. }
  split; [exact Hsnapuser|].
  intros Hu. unfold User; cbn [B]. rewrite Hsnapuser, snapshot_lookup.
  now rewrite Hu.
Qed.

Lemma Set_twice_history_witness :
  emptyEntryStore !! "e" = Some (VMap ∅)
  ∧ ∃ (st1 st2 : Blobs) (blob snap : Blob),
      Set_ 100 "e" "user" "a" emptyEntryStore = (Returned tt, st1)
      ∧ Set_ 200 "e" "user" "b" st1 = (Returned tt, st2)
      ∧ Get "e" st2 = (Returned blob, st2)
      ∧ NSnapshots blob = (2, None)
      ∧ Snapshot blob 0 = (snap, None)
      ∧ B snap = snapshot (afterSet 100 "e" "a" ∅)
      ∧ B snap !! "e" = Some (VString "a")
      ∧ B snap !! keyUser = snapshot (∅ : Fields) !! keyUser
      ∧ ((∅ : Fields) !! keyUser = None → User snap = Returned "").
Proof.
  split; [reflexivity|].
  apply (Set_twice_history 100 200 emptyEntryStore "e" ∅);
    [reflexivity | reflexivity | discriminate | discriminate].
Defined.

Lemma NSnapshots_priorSnaps (b : Blob) :
  (NSnapshots b).1 = len (priorSnaps (B b)).
Proof.
  unfold NSnapshots, priorSnaps, index.
  destruct (B b !! keySnapshots) as [[]|]; reflexivity.
Qed.

Lemma len_nonneg (l : list value) : 0 ≤ len l.
Proof. unfold len. lia. Qed.

Lemma len_snoc (l : list value) v : len (l ++ [v]) = len l + 1.
Proof. unfold len. rewrite length_app. simpl. lia. Qed.

(** ** Notes and labels against the generic setter *)

(** [SetNotes] replaces the notes and the time stamp; the number of
    snapshots and every other field stay, as do the other entries. *)
Lemma SetNotes_frame now (st : Blobs) name (m : Fields) notes :
  st !! name = Some (VMap m) →
  ∃ m' : Fields,
    SetNotes now name notes st = (Returned tt, <[name := VMap m']> st)
    ∧ m' !! keyNotes = Some (uglyConversion notes)
    ∧ m' !! keyUpdated = Some (VInt now)
    ∧ NSnapshots (mkBlob name m') = NSnapshots (mkBlob name m)
    ∧ ∀ k, k ≠ keyNotes → k ≠ keyUpdated → m' !! k = m !! k.
Proof.
  intros Hm. exists (afterList now keyNotes notes m).
  split; [now apply SetNotes_run|]. unfold afterList.
  split; [apply lookup_insert_eq|].
  split; [now rewrite lookup_insert_ne, lookup_insert_eq by discriminate|].
  split.
  - unfold NSnapshots, index; cbn [B Name].
    now rewrite !lookup_insert_ne by discriminate.
  - intros k Hn Hu. now rewrite !lookup_insert_ne by congruence.
Qed.

(** [SetLabels] behaves in the same way on the labels. *)
Lemma SetLabels_frame now (st : Blobs) name (m : Fields) labels :
  st !! name = Some (VMap m) →
  ∃ m' : Fields,
    SetLabels now name labels st = (Returned tt, <[name := VMap m']> st)
    ∧ m' !! keyLabels = Some (uglyConversion labels)
    ∧ m' !! keyUpdated = Some (VInt now)
    ∧ NSnapshots (mkBlob name m') = NSnapshots (mkBlob name m)
    ∧ ∀ k, k ≠ keyLabels → k ≠ keyUpdated → m' !! k = m !! k.
Proof.
  intros Hm. exists (afterList now keyLabels labels m).
  split; [now apply SetLabels_run|]. unfold afterList.
  split; [apply lookup_insert_eq|].
  split; [now rewrite lookup_insert_ne, lookup_insert_eq by discriminate|].
  split.
  - unfold NSnapshots, index; cbn [B Name].
    now rewrite !lookup_insert_ne by discriminate.
  - intros k Hn Hu. now rewrite !lookup_insert_ne by congruence.
Qed.

(** On an entry whose name is neither [snapshots] nor [updated], a
    successful [Set_] stamps the entry and records one more snapshot. *)
Lemma Set_history_grows now (st : Blobs) name (m : Fields) key val :
  st !! name = Some (VMap m) →
  ToLower key ∉ protectedKeys →
  name ≠ keySnapshots →
  name ≠ keyUpdated →
  ∃ m' : Fields,
    Set_ now name key val st = (Returned tt, <[name := VMap m']> st)
    ∧ m' !! keyUpdated = Some (VInt now)
    ∧ NSnapshots (mkBlob name m')
      = ((NSnapshots (mkBlob name m)).1 + 1, None).
Proof.
  intros Hm Hkey Hns Hnu. exists (afterSet now name val m).
  split; [now apply Set_run|]. split.
  - unfold afterSet. rewrite lookup_insert_ne by congruence.
    apply lookup_insert_eq.
  - rewrite NSnapshots_priorSnaps. unfold NSnapshots; cbn [B Name].
    rewrite index_snapshots_afterSet by done. now rewrite len_snoc.
Qed.

(** C8 (the code departs from it): [Set_] on the entry that is itself named
    ["snapshots"] returns, yet its last write replaces the snapshot list by
    the text value: afterwards [NSnapshots] reports a format error and the
    count 0, which is not one more than the count before. *)
Theorem Set_on_entry_named_snapshots now (st : Blobs) (m : Fields) key val :
  st !! keySnapshots = Some (VMap m) →
  ToLower key ∉ protectedKeys →
  ∃ (st' : Blobs) (blob : Blob),
    Set_ now keySnapshots key val st = (Returned tt, st')
    ∧ Get keySnapshots st' = (Returned blob, st')
    ∧ NSnapshots blob = (0, Some (ErrSnapshotsFormat keySnapshots))
    ∧ (NSnapshots blob).1 ≠ (NSnapshots (mkBlob keySnapshots m)).1 + 1.
Proof.
  intros Hm Hkey.
  exists (<[keySnapshots := VMap (afterSet now keySnapshots val m)]> st),
    (mkBlob keySnapshots (afterSet now keySnapshots val m)).
  split; [now apply Set_run|].
  split; [apply Get_existing, lookup_insert_eq|].
  assert (HN : NSnapshots (mkBlob keySnapshots (afterSet now keySnapshots val m))
               = (0, Some (ErrSnapshotsFormat keySnapshots))).
  { unfold NSnapshots, index, afterSet; cbn [B Name].
    now rewrite lookup_insert_eq. }
  split; [exact HN|]. rewrite HN, NSnapshots_priorSnaps; cbn [fst].
  pose proof (len_nonneg (priorSnaps (B (mkBlob keySnapshots m)))). lia.
Qed.

Lemma Set_on_entry_named_snapshots_witness :
  snapshotsNamedStore !! keySnapshots = Some (VMap ∅)
  ∧ (ToLower "user" ∉ protectedKeys)
  ∧ ∃ (st' : Blobs) (blob : Blob),
      Set_ 100 keySnapshots "user" "a" snapshotsNamedStore = (Returned tt, st')
      ∧ Get keySnapshots st' = (Returned blob, st')
      ∧ NSnapshots blob = (0, Some (ErrSnapshotsFormat keySnapshots))
      ∧ (NSnapshots blob).1 ≠ (NSnapshots (mkBlob keySnapshots ∅)).1 + 1.
Proof.
  split; [reflexivity|]. split; [compute_done|].
  apply (Set_on_entry_named_snapshots 100 snapshotsNamedStore ∅ "user" "a");
    [reflexivity | compute_done].
Defined.

(** ** A history that is not a list *)

Lemma priorSnaps_not_a_list (m : Fields) v :
  m !! keySnapshots = Some v → (∀ l, v ≠ VSlice l) → priorSnaps m = [].
Proof.
  intros Hv Hnl. unfold priorSnaps. rewrite Hv.
  destruct v; try reflexivity. now destruct (Hnl l).
Qed.

Lemma addSnapshot_run (st : Blobs) name (m : Fields) :
  st !! name = Some (VMap m) →
  addSnapshot (mkBlob name m) st
  = (Returned tt,
     <[name := VMap (<[keySnapshots :=
                         VSlice (priorSnaps m ++ [VMap (snapshot m)])]> m)]> st).
Proof.
  intros Hm. unfold addSnapshot, assign; cbn [Name].
  now rewrite (live_existing _ _ _ Hm).
Qed.

(** [addSnapshot] on a history that is not a list does not stop: the stored
    value is replaced by the list holding the one fresh snapshot. *)
Lemma addSnapshot_discards_stray_history (st : Blobs) name (m : Fields) v :
  st !! name = Some (VMap m) →
  m !! keySnapshots = Some v →
  (∀ l, v ≠ VSlice l) →
  addSnapshot (mkBlob name m) st
  = (Returned tt,
     <[name := VMap (<[keySnapshots := VSlice [VMap (snapshot m)]]> m)]> st).
Proof.
  intros Hm Hv Hnl. rewrite (addSnapshot_run _ _ _ Hm).
  now rewrite (priorSnaps_not_a_list _ _ Hv Hnl).
Qed.

(** The same through [Set_], for an entry that is not named ["snapshots"]. *)
Lemma Set_discards_stray_history now (st : Blobs) name (m : Fields) v key val :
  st !! name = Some (VMap m) →
  m !! keySnapshots = Some v →
  (∀ l, v ≠ VSlice l) →
  ToLower key ∉ protectedKeys →
  name ≠ keySnapshots →
  ∃ m' : Fields,
    Set_ now name key val st = (Returned tt, <[name := VMap m']> st)
    ∧ m' !! keySnapshots = Some (VSlice [VMap (snapshot m)]).
Proof.
  intros Hm Hv Hnl Hkey Hns. exists (afterSet now name val m).
  split; [now apply Set_run|].
  unfold afterSet. rewrite lookup_insert_ne by congruence.
  rewrite lookup_insert_ne by discriminate.
  rewrite (priorSnaps_not_a_list _ _ Hv Hnl). apply lookup_insert_eq.
Qed.

(** C9 (the code departs from it): when the entry with the stray history is
    itself named ["snapshots"], [Set_] returns without reporting anything,
    but what it leaves under [snapshots] is the text value written by its
    last statement, not a list holding the fresh snapshot. *)
Theorem Set_stray_history_of_entry_named_snapshots
    now (st : Blobs) (m : Fields) v key val :
  st !! keySnapshots = Some (VMap m) →
  m !! keySnapshots = Some v →
  (∀ l, v ≠ VSlice l) →
  ToLower key ∉ protectedKeys →
  ∃ m' : Fields,
    Set_ now keySnapshots key val st
    = (Returned tt, <[keySnapshots := VMap m']> st)
    ∧ m' !! keySnapshots = Some (VString val)
    ∧ m' !! keySnapshots ≠ Some (VSlice [VMap (snapshot m)]).
Proof.
  intros Hm Hv Hnl Hkey. exists (afterSet now keySnapshots val m).
  split; [now apply Set_run|].
  assert (H : afterSet now keySnapshots val m !! keySnapshots
              = Some (VString val)) by apply lookup_insert_eq.
  split; [exact H|]. rewrite H. discriminate.
Qed.

Lemma Set_stray_history_of_entry_named_snapshots_witness :
  strayHistoryStore !! keySnapshots = Some (VMap strayHistory)
  ∧ strayHistory !! keySnapshots = Some (VString "junk")
  ∧ (∀ l, VString "junk" ≠ VSlice l)
  ∧ (ToLower "user" ∉ protectedKeys)
  ∧ ∃ m' : Fields,
      Set_ 100 keySnapshots "user" "a" strayHistoryStore
      = (Returned tt, <[keySnapshots := VMap m']> strayHistoryStore)
      ∧ m' !! keySnapshots = Some (VString "a")
      ∧ m' !! keySnapshots ≠ Some (VSlice [VMap (snapshot strayHistory)]).
Proof.
  split; [reflexivity|]. split; [reflexivity|].
  split; [discriminate|]. split; [compute_done|].
  apply (Set_stray_history_of_entry_named_snapshots 100 strayHistoryStore
           strayHistory (VString "junk") "user" "a");
    [reflexivity | reflexivity | discriminate | compute_done].
Defined.

(** ** What a snapshot holds *)

Lemma copyField_Some k v w :
  copyField k v = Some w ↔ k ≠ keySnapshots ∧ w = v ∧ copiedKind v = true.
Proof.
  unfold copyField.
  destruct (String.eqb_spec k keySnapshots) as [->|Hne].
  - split; [discriminate | intros [[] _]; reflexivity].
  - destruct v; simpl; split;
      try (intros [= <-]; now repeat split);
      try discriminate;
      try (intros (_ & -> & _); reflexivity);
      try (intros (_ & _ & [=])).
Qed.

(** C4, amended: a snapshot never has a [snapshots] field, and it holds
    exactly the other fields of the entry whose value is a string, a number
    or a slice; a slice is copied whatever its elements are, and a field of
    any other kind is left out without a report. *)
Theorem snapshot_contents (m : Fields) :
  snapshot m !! keySnapshots = None ∧ recordsExactly copiedKind m.
Proof.
  split.
  - rewrite snapshot_lookup. destruct (m !! keySnapshots); reflexivity.
  - intros k v. rewrite snapshot_lookup. split.
    + destruct (m !! k) as [u|] eqn:Hu; simpl; [|discriminate].
      intros H. apply copyField_Some in H as (Hne & -> & Hkind). done.
    + intros (Hne & Hv & Hkind). rewrite Hv. simpl.
      apply copyField_Some. done.
Qed.

(** C4 as the specification words it fails: the list of objects under
    [archive] is not a list of text, and the snapshot holds it all the same. *)
Lemma snapshot_keeps_list_of_objects :
  ¬ recordsExactly recordedKind archiveEntry.
Proof.
  intros H.
  destruct (H "archive" (VSlice [VMap ∅])) as [Hto _].
  assert (Hin : snapshot archiveEntry !! "archive" = Some (VSlice [VMap ∅]))
    by reflexivity.
  destruct (Hto Hin) as (_ & _ & Hkind). discriminate Hkind.
Qed.

(** ** The accessors [User] and [Pass] *)

Lemma text_accessor_returns (o : option value) s :
  match o with
  | None => Returned ""
  | Some (VString t) => Returned t
  | Some _ => Panicked TypeAssertion
  end = Returned s
  ↔ (o = None ∧ s = "") ∨ o = Some (VString s).
Proof.
  destruct o as [[]|]; split;
    try (intros [= <-]; auto);
    try discriminate;
    try (intros [[[=] _]|[=]]; subst; reflexivity);
    try (intros [[_ ->]|[=]]; reflexivity).
Qed.

Lemma text_accessor_panics (o : option value) :
  match o with
  | None => Returned ""
  | Some (VString t) => Returned t
  | Some _ => Panicked TypeAssertion
  end = Panicked TypeAssertion
  ↔ ∃ v, o = Some v ∧ isText v = false.
Proof.
  destruct o as [v|]; split.
  - intros H. exists v. split; [reflexivity|]. now destruct v.
  - intros (w & [= <-] & Hw). now destruct v.
  - discriminate.
  - intros (w & [=] & _).
Qed.

(** C10: [User] and [Pass] return exactly when their field is absent (the
    empty string) or holds text (that text); when the field holds anything
    else, the unchecked type assertion panics. *)
Theorem User_Pass_partial (b : Blob) :
  (∀ s, User b = Returned s
        ↔ (B b !! keyUser = None ∧ s = "") ∨ B b !! keyUser = Some (VString s))
  ∧ (User b = Panicked TypeAssertion
     ↔ ∃ v, B b !! keyUser = Some v ∧ isText v = false)
  ∧ (∀ s, Pass b = Returned s
          ↔ (B b !! keyPass = None ∧ s = "") ∨ B b !! keyPass = Some (VString s))
  ∧ (Pass b = Panicked TypeAssertion
     ↔ ∃ v, B b !! keyPass = Some v ∧ isText v = false).
Proof.
  unfold User, Pass. repeat split;
    try apply text_accessor_returns; try apply text_accessor_panics.
Qed.

(** ** Storing a two-factor seed *)

Section TwoFactorProperties.
Context (lib : otpLibrary).

Lemma SetTwofactor_run now (st : Blobs) name (m : Fields) uriOrKey key :
  st !! name = Some (VMap m) →
  NewKeyFromURL lib (seedURI lib name uriOrKey) = Some key →
  SetTwofactor lib now name uriOrKey st
  = (Returned None,
     <[name := VMap (afterTwoFactor now (seedURI lib name uriOrKey) m)]> st).
Proof.
  intros Hm Hkey. unfold SetTwofactor, bind.
  rewrite (Get_existing _ _ _ Hm), Hkey.
  unfold addSnapshot, touchUpdated, assign, ret, afterTwoFactor; cbn [Name].
  rewrite (live_existing _ _ _ Hm), !live_insert.
  now rewrite !insert_insert_eq.
Qed.

Lemma SetTwofactor_run_unparsed now (st : Blobs) name (m : Fields) uriOrKey :
  st !! name = Some (VMap m) →
  NewKeyFromURL lib (seedURI lib name uriOrKey) = None →
  SetTwofactor lib now name uriOrKey st = (Returned (Some ErrUriParse), st).
Proof.
  intros Hm Hkey. unfold SetTwofactor, bind.
  now rewrite (Get_existing _ _ _ Hm), Hkey.
Qed.

(** [SetTwofactor] reports an error exactly when the URI does not parse. *)
Lemma SetTwofactor_fails_iff now (st : Blobs) name (m : Fields) uriOrKey :
  st !! name = Some (VMap m) →
  (∃ e, (SetTwofactor lib now name uriOrKey st).1 = Returned (Some e))
  ↔ NewKeyFromURL lib (seedURI lib name uriOrKey) = None.
Proof.
  intros Hm.
  destruct (NewKeyFromURL lib (seedURI lib name uriOrKey)) as [key|] eqn:Hkey.
  - rewrite (SetTwofactor_run _ _ _ _ _ _ Hm Hkey). simpl.
    split; [intros (e & [=]) | discriminate].
  - rewrite (SetTwofactor_run_unparsed _ _ _ _ _ Hm Hkey). simpl.
    split; [reflexivity | eauto].
Qed.

(** C5: on an existing entry, whenever [SetTwofactor] returns an error the
    store is the one it started from: the entry has no new snapshot, its
    [updated] stamp and its twofactor field are as before. *)
Theorem SetTwofactor_failure_leaves_store
    now (st st' : Blobs) name (m : Fields) uriOrKey e :
  st !! name = Some (VMap m) →
  SetTwofactor lib now name uriOrKey st = (Returned (Some e), st') →
  st' = st ∧ st' !! name = Some (VMap m).
Proof.
  intros Hm Hrun.
  destruct (NewKeyFromURL lib (seedURI lib name uriOrKey)) as [key|] eqn:Hkey.
  - rewrite (SetTwofactor_run _ _ _ _ _ _ Hm Hkey) in Hrun. discriminate.
  - rewrite (SetTwofactor_run_unparsed _ _ _ _ _ Hm Hkey) in Hrun.
    injection Hrun as _ <-. done.
Qed.

(** C2 (the code departs from it): a URI that parses is stored whatever its
    type. With an existing entry and an input whose URI parses to a key of a
    type other than ["totp"], [SetTwofactor] returns no error and writes the
    URI to the twofactor field; it is [TwoFactor] that rejects it later. *)
Theorem SetTwofactor_stores_other_types
    now later (st : Blobs) name (m : Fields) uriOrKey key :
  st !! name = Some (VMap m) →
  NewKeyFromURL lib (seedURI lib name uriOrKey) = Some key →
  KeyType lib key ≠ "totp" →
  ∃ (st' : Blobs) (blob : Blob),
    SetTwofactor lib now name uriOrKey st = (Returned None, st')
    ∧ Get name st' = (Returned blob, st')
    ∧ B blob !! keyTwoFactor = Some (VString (seedURI lib name uriOrKey))
    ∧ TwoFactor lib later blob = Returned ("", Some (ErrNotTotp name)).
Proof.
  intros Hm Hkey Htype.
  set (uri := seedURI lib name uriOrKey) in *.
  exists (<[name := VMap (afterTwoFactor now uri m)]> st),
    (mkBlob name (afterTwoFactor now uri m)).
  split; [now apply SetTwofactor_run with key|].
  split; [apply Get_existing, lookup_insert_eq|].
  assert (Hf : afterTwoFactor now uri m !! keyTwoFactor = Some (VString uri))
    by apply lookup_insert_eq.
  split; [exact Hf|].
  unfold TwoFactor, index; cbn [B Name]. rewrite Hf. simpl. rewrite Hkey.
  destruct (String.eqb_spec (KeyType lib key) "totp"); [contradiction|].
  reflexivity.
Qed.

(** A successful [SetTwofactor] on a history that is not a list replaces it
    by the list holding the one fresh snapshot. *)
Lemma SetTwofactor_discards_stray_history
    now (st : Blobs) name (m : Fields) v uriOrKey key :
  st !! name = Some (VMap m) →
  m !! keySnapshots = Some v →
  (∀ l, v ≠ VSlice l) →
  NewKeyFromURL lib (seedURI lib name uriOrKey) = Some key →
  ∃ m' : Fields,
    SetTwofactor lib now name uriOrKey st
    = (Returned None, <[name := VMap m']> st)
    ∧ m' !! keySnapshots = Some (VSlice [VMap (snapshot m)]).
Proof.
  intros Hm Hv Hnl Hkey.
  exists (afterTwoFactor now (seedURI lib name uriOrKey) m).
  split; [now apply SetTwofactor_run with key|].
  unfold afterTwoFactor. rewrite !lookup_insert_ne by discriminate.
  rewrite (priorSnaps_not_a_list _ _ Hv Hnl). apply lookup_insert_eq.
Qed.

End TwoFactorProperties.

Lemma SetTwofactor_failure_leaves_store_witness :
  emptyEntryStore !! "e" = Some (VMap ∅)
  ∧ SetTwofactor sampleLibrary 100 "e" "otpauth://to tp/acct?secret=AB"
      emptyEntryStore
    = (Returned (Some ErrUriParse), emptyEntryStore)
  ∧ emptyEntryStore = emptyEntryStore
  ∧ emptyEntryStore !! "e" = Some (VMap ∅).
Proof.
  split; [reflexivity|]. split; [reflexivity|].
  apply (SetTwofactor_failure_leaves_store sampleLibrary 100 emptyEntryStore
           emptyEntryStore "e" ∅ "otpauth://to tp/acct?secret=AB" ErrUriParse);
    reflexivity.
Defined.

Lemma SetTwofactor_stores_other_types_witness :
  emptyEntryStore !! "e" = Some (VMap ∅)
  ∧ NewKeyFromURL sampleLibrary
      (seedURI sampleLibrary "e" "otpauth://hotp/acct?secret=AB&counter=1")
    = Some "hotp"
  ∧ KeyType sampleLibrary "hotp" ≠ "totp"
  ∧ ∃ (st' : Blobs) (blob : Blob),
      SetTwofactor sampleLibrary 100 "e"
        "otpauth://hotp/acct?secret=AB&counter=1" emptyEntryStore
      = (Returned None, st')
      ∧ Get "e" st' = (Returned blob, st')
      ∧ B blob !! keyTwoFactor
        = Some (VString (seedURI sampleLibrary "e"
                           "otpauth://hotp/acct?secret=AB&counter=1"))
      ∧ TwoFactor sampleLibrary 200 blob = Returned ("", Some (ErrNotTotp "e")).
Proof.
  split; [reflexivity|]. split; [reflexivity|]. split; [discriminate|].
  apply (SetTwofactor_stores_other_types sampleLibrary 100 200 emptyEntryStore
           "e" ∅ "otpauth://hotp/acct?secret=AB&counter=1" "hotp");
    [reflexivity | reflexivity | discriminate].
Defined.

(** ** Search *)

(** *** What [Split] gives *)

Lemma Split_not_nil s : Split s ≠ [].
Proof.
  destruct s as [|c s]; simpl; [discriminate|].
  destruct (Ascii.eqb c slash); [discriminate|].
  destruct (Split s); discriminate.
Qed.

Lemma joinSlash_cons seg rest :
  rest ≠ [] → joinSlash (seg :: rest) = seg +:+ String slash (joinSlash rest).
Proof. destruct rest; [contradiction | reflexivity]. Qed.

Lemma joinSlash_Split s : joinSlash (Split s) = s.
Proof.
  induction s as [|c s IH]; [reflexivity|]. simpl.
  destruct (Ascii.eqb c slash) eqn:E.
  - apply Ascii.eqb_eq in E as ->.
    rewrite joinSlash_cons by apply Split_not_nil. simpl. now rewrite IH.
  - pose proof (Split_not_nil s) as Hne.
    destruct (Split s) as [|h t]; [contradiction|].
    rewrite <- IH. destruct t; reflexivity.
Qed.

Lemma Split_segments_no_slash s :
  Forall (λ seg, slash ∉ chars seg) (Split s).
Proof.
  induction s as [|c s IH]; simpl.
  - repeat constructor. apply not_elem_of_nil.
  - destruct (Ascii.eqb c slash) eqn:E.
    + constructor; [apply not_elem_of_nil | exact IH].
    + apply Ascii.eqb_neq in E.
      destruct (Split s) as [|h t].
      * repeat constructor. simpl. rewrite not_elem_of_cons.
        split; [congruence | apply not_elem_of_nil].
      * apply Forall_cons in IH as [Hh Ht]. constructor; [|exact Ht].
        simpl. rewrite not_elem_of_cons. split; [congruence | exact Hh].
Qed.

Lemma Split_no_slash s : slash ∉ chars s → Split s = [s].
Proof.
  induction s as [|c s IH]; [reflexivity|]. simpl.
  rewrite not_elem_of_cons. intros [Hc Hs].
  destruct (Ascii.eqb_spec c slash) as [->|_]; [contradiction|].
  now rewrite (IH Hs).
Qed.

Lemma Split_app_slash seg t :
  slash ∉ chars seg → Split (seg +:+ String slash t) = seg :: Split t.
Proof.
  induction seg as [|c seg IH]; simpl.
  - intros _. reflexivity.
  - rewrite not_elem_of_cons. intros [Hc Hs].
    destruct (Ascii.eqb_spec c slash) as [->|_]; [contradiction|].
    now rewrite (IH Hs).
Qed.

Lemma Split_joinSlash segs :
  segs ≠ [] → Forall (λ seg, slash ∉ chars seg) segs →
  Split (joinSlash segs) = segs.
Proof.
  induction segs as [|seg rest IH]; [contradiction|]. intros _ Hall.
  apply Forall_cons in Hall as [Hseg Hrest].
  destruct rest as [|seg' rest].
  - simpl. now apply Split_no_slash.
  - rewrite joinSlash_cons by discriminate.
    rewrite Split_app_slash by exact Hseg.
    now rewrite IH.
Qed.

(** [Split] gives the segments of the string, and nothing else does. *)
Lemma segmentsOf_Split s segs : segmentsOf s segs ↔ segs = Split s.
Proof.
  unfold segmentsOf. split.
  - intros (Hne & <- & Hall). symmetry. now apply Split_joinSlash.
  - intros ->. split; [apply Split_not_nil|].
    split; [apply joinSlash_Split | apply Split_segments_no_slash].
Qed.

(** *** The scan and the loops *)

Section SearchProperties.
Context (toLower : rune → rune).

(** The left-to-right scan decides the case-folded subsequence relation. *)
Lemma matchRunes_sublist (target source : list rune) :
  matchRunes toLower source target = true
  ↔ (toLower <$> source) `sublist_of` (toLower <$> target).
Proof.
  revert source. induction target as [|r2 target IH]; intros [|r1 source]; simpl.
  - split; [constructor | reflexivity].
  - split; [discriminate|]. intros H. now apply sublist_nil_r in H.
  - split; [intros _; apply sublist_nil_l | reflexivity].
  - destruct (Z.eqb_spec (toLower r1) (toLower r2)) as [Heq|Hne].
    + rewrite IH, Heq. split; [apply sublist_skip|].
      intros H. apply sublist_cons_r in H as [H|(l' & [= <-] & H)]; [|done].
      etrans; [|exact H]. now apply sublist_cons.
    + rewrite IH. simpl. split; [apply sublist_cons|].
      intros H. apply sublist_cons_r in H as [H|(l' & [= Hh _] & _)]; done.
Qed.

Lemma MatchFold_spec source target :
  MatchFold toLower source target = true
  ↔ fuzzySubsequence toLower source target.
Proof. apply matchRunes_sublist. Qed.

Lemma fragmentsMatch_spec fragments (keyFrags : list string) i :
  fragmentsMatch toLower i fragments keyFrags = true
  ↔ Forall2 (fuzzySubsequence toLower) fragments
      (take (length fragments) (drop i keyFrags)).
Proof.
  revert i. induction fragments as [|f rest IH]; intros i; simpl.
  - split; [constructor | reflexivity].
  - destruct (keyFrags !! i) as [kf|] eqn:Hi.
    + rewrite (drop_S _ _ _ Hi). simpl. rewrite Forall2_cons, <- IH.
      rewrite <- MatchFold_spec.
      destruct (MatchFold toLower f kf); split; try done; intros [? ?]; done.
    + rewrite drop_ge by now apply lookup_ge_None.
      split; [discriminate | intros H; inversion H].
Qed.

Lemma keyMatches_spec fragments k :
  keyMatches toLower fragments k = true
  ↔ length (Split k) = length fragments
    ∧ Forall2 (fuzzySubsequence toLower) fragments (Split k).
Proof.
  unfold keyMatches.
  destruct (Nat.eqb_spec (length (Split k)) (length fragments)) as [Hlen|Hlen];
    simpl.
  - rewrite fragmentsMatch_spec, drop_0, take_ge by lia. tauto.
  - split; [discriminate | tauto].
Qed.

Lemma Find_keyMatches (b : Blobs) search name :
  name ∈ Find toLower b search
  ↔ is_Some (b !! name) ∧ keyMatches toLower (Split search) name = true.
Proof.
  unfold Find. rewrite list_elem_of_In, filter_In, <- list_elem_of_In.
  rewrite list_elem_of_fmap. split.
  - intros [([k v] & -> & Hin) Hmatch]. apply elem_of_map_to_list in Hin.
    simpl. eauto.
  - intros [[v Hv] Hmatch]. split; [|done].
    exists (name, v). split; [reflexivity|]. now apply elem_of_map_to_list.
Qed.

(** *** ASCII names and queries

    On them the search is the same for every folding that lower-cases the
    ASCII letters. *)

Lemma matchRunes_ascii (source target : list rune) :
  foldsAscii toLower →
  forallb (inRange 0 127) source = true →
  forallb (inRange 0 127) target = true →
  matchRunes toLower source target = matchRunes lowerRune source target.
Proof.
  intros Hfold. revert source.
  induction target as [|r2 target IH]; intros [|r1 source] Hs Ht; simpl;
    try reflexivity.
  simpl in Hs, Ht.
  apply andb_true_iff in Hs as [Hr1 Hs], Ht as [Hr2 Ht].
  assert (H1 : toLower r1 = lowerRune r1)
    by (apply Hfold; unfold inRange in Hr1; lia).
  assert (H2 : toLower r2 = lowerRune r2)
    by (apply Hfold; unfold inRange in Hr2; lia).
  rewrite H1, H2, (IH source Hs Ht).
  rewrite (IH (r1 :: source)); [reflexivity | | exact Ht].
  simpl. now rewrite Hr1, Hs.
Qed.

Lemma fragmentsMatch_ascii fragments (keyFrags : list string) i :
  foldsAscii toLower →
  forallb asciiOnly fragments = true →
  forallb asciiOnly keyFrags = true →
  fragmentsMatch toLower i fragments keyFrags
  = fragmentsMatch lowerRune i fragments keyFrags.
Proof.
  intros Hfold Hf Hk. revert i.
  induction fragments as [|f rest IH]; intros i; simpl; [reflexivity|].
  simpl in Hf. apply andb_true_iff in Hf as [Hf Hrest].
  destruct (keyFrags !! i) as [kf|] eqn:Hi; [|reflexivity].
  assert (Hkf : asciiOnly kf = true).
  { rewrite forallb_forall in Hk. apply Hk, list_elem_of_In.
    eapply list_elem_of_lookup_2, Hi. }
  unfold MatchFold. rewrite (matchRunes_ascii _ _ Hfold Hf Hkf).
  now rewrite (IH Hrest).
Qed.

Lemma Find_ascii (b : Blobs) search :
  foldsAscii toLower →
  forallb asciiOnly (Split search) = true →
  asciiNames b = true →
  Find toLower b search = Find lowerRune b search.
Proof.
  intros Hfold Hs Hb. unfold Find. apply filter_ext_in. intros k Hk.
  unfold asciiNames in Hb. rewrite forallb_forall in Hb.
  unfold keyMatches.
  now rewrite (fragmentsMatch_ascii _ _ _ Hfold Hs (Hb k Hk)).
Qed.

End SearchProperties.

(** C6: [Find] returns a name of the store exactly when the name and the
    query, cut at each [/], have the same number of segments and each query
    segment is a case-folded subsequence of the name's segment at the same
    position, rune by rune. With a folding that lower-cases the ASCII
    letters, the query ["ab/cd"] gives ["abcx/cdy"] and neither ["abcx"] nor
    ["zz/cdy"], and upper-case letters in the query or in the name make no
    difference. *)
Theorem Find_spec :
  (∀ toLower (b : Blobs) search name,
     name ∈ Find toLower b search
     ↔ is_Some (b !! name)
       ∧ ∃ qs ns,
           segmentsOf search qs ∧ segmentsOf name ns
           ∧ length ns = length qs
           ∧ Forall2 (fuzzySubsequence toLower) qs ns)
  ∧ (∀ toLower, foldsAscii toLower →
       Find toLower searchStore "ab/cd" = ["abcx/cdy"]
       ∧ Find toLower searchStore "AB/cD" = ["abcx/cdy"]
       ∧ Find toLower caseStore "wORK/mail" = ["Work/EMail"]
       ∧ Find toLower caseStore "work/bk" = ["work/bank"]).
Proof.
  split.
  - intros toLower b search name.
    rewrite Find_keyMatches, keyMatches_spec. split.
    + intros (Hin & Hlen & Hall). split; [exact Hin|].
      exists (Split search), (Split name).
      now rewrite !segmentsOf_Split.
    + intros (Hin & qs & ns & Hqs & Hns & Hlen & Hall).
      apply segmentsOf_Split in Hqs as ->, Hns as ->. done.
  - intros toLower Hfold.
    rewrite !(Find_ascii toLower _ _ Hfold) by reflexivity.
    repeat split.
Qed.

(** ** The setters at work on small stores *)

Example Set_on_stray_history :
  (Set_ 100 "e" "user" "a" strayHistoryEntryStore).2 !! "e"
  = Some (VMap (<["e" := VString "a"]>
                  (<[keyUpdated := VInt 100]>
                     (<[keySnapshots := VSlice [VMap ∅]]> strayHistory)))).
Proof. reflexivity. Qed.

Example SetLabels_keeps_history :
  let st := (Set_ 100 "e" "user" "a" emptyEntryStore).2 in
  let st' := (SetLabels 200 "e" ["mail"; "work"] st).2 in
  NSnapshots (mkBlob "e" (live (mkBlob "e" ∅) st)) = (1, None)
  ∧ NSnapshots (mkBlob "e" (live (mkBlob "e" ∅) st')) = (1, None)
  ∧ Updated (mkBlob "e" (live (mkBlob "e" ∅) st')) "e" = Some 200
  ∧ Labels (mkBlob "e" (live (mkBlob "e" ∅) st')) = (["mail"; "work"], None).
Proof. repeat split. Qed.

Example Snapshot_out_of_range :
  let st := (Set_ 100 "e" "user" "a" emptyEntryStore).2 in
  Snapshot (mkBlob "e" (live (mkBlob "e" ∅) st)) 1
  = (zeroBlob, Some (ErrSnapshotRange "e" 1 1)).
Proof. reflexivity. Qed.

(** * Further properties of the store *)

(** ** Setters and the set of entries *)

Lemma Get_refused (st : Blobs) name :
  (∀ m : Fields, st !! name ≠ Some (VMap m)) →
  Get name st
  = (Panicked (match st !! name with
               | None => EntryNotFound name
               | Some _ => EntryBadFormat name
               end), st).
Proof.
  intros Hno. unfold Get, get, bind.
  destruct (st !! name) as [[]|] eqn:E; try reflexivity.
  now destruct (Hno m).
Qed.

(** X1: no setter creates an entry. When the name is absent, or holds
    something that is not an object, [Set_], [SetTwofactor], [SetNotes] and
    [SetLabels] all panic (entry not found, respectively not in the correct
    format) and leave the store as it was. *)
Theorem setters_need_an_object
    lib now (st : Blobs) name key val uriOrKey notes labels :
  (∀ m : Fields, st !! name ≠ Some (VMap m)) →
  ∃ p, p = match st !! name with
           | None => EntryNotFound name
           | Some _ => EntryBadFormat name
           end
       ∧ Set_ now name key val st = (Panicked p, st)
       ∧ SetTwofactor lib now name uriOrKey st = (Panicked p, st)
       ∧ SetNotes now name notes st = (Panicked p, st)
       ∧ SetLabels now name labels st = (Panicked p, st).
Proof.
  intros Hno. eexists. split; [reflexivity|].
  unfold Set_, SetTwofactor, SetNotes, SetLabels, bind.
  now rewrite (Get_refused _ _ Hno).
Qed.

Lemma setters_need_an_object_witness :
  (∀ m : Fields, emptyEntryStore !! "mail" ≠ Some (VMap m))
  ∧ ∃ p, p = match emptyEntryStore !! "mail" with
             | None => EntryNotFound "mail"
             | Some _ => EntryBadFormat "mail"
             end
         ∧ Set_ 100 "mail" "user" "a" emptyEntryStore
           = (Panicked p, emptyEntryStore)
         ∧ SetTwofactor sampleLibrary 100 "mail" "AB" emptyEntryStore
           = (Panicked p, emptyEntryStore)
         ∧ SetNotes 100 "mail" ["n"] emptyEntryStore
           = (Panicked p, emptyEntryStore)
         ∧ SetLabels 100 "mail" ["l"] emptyEntryStore
           = (Panicked p, emptyEntryStore).
Proof.
  split; [intros m; discriminate|].
  apply (setters_need_an_object sampleLibrary 100 emptyEntryStore "mail"
           "user" "a" "AB" ["n"] ["l"]).
  intros m; discriminate.
Defined.

Lemma Set_touchesOnly now (st : Blobs) name key val :
  touchesOnly name st (Set_ now name key val st).2.
Proof.
  destruct (st !! name) as [v|] eqn:E.
  - destruct v;
      try (left; unfold Set_, bind;
           rewrite Get_refused by (rewrite E; discriminate); reflexivity).
    destruct (decide (ToLower key ∈ protectedKeys)) as [Hin|Hnot].
    + left. now rewrite (Set_run_protected _ _ _ _ _ _ E Hin).
    + right. rewrite (Set_run _ _ _ _ _ _ E Hnot). simpl. eauto.
  - left. unfold Set_, bind.
    rewrite Get_refused by (rewrite E; discriminate). reflexivity.
Qed.

Lemma SetNotes_touchesOnly now (st : Blobs) name notes :
  touchesOnly name st (SetNotes now name notes st).2.
Proof.
  destruct (st !! name) as [v|] eqn:E.
  - destruct v;
      try (left; unfold SetNotes, bind;
           rewrite Get_refused by (rewrite E; discriminate); reflexivity).
    right. rewrite (SetNotes_run _ _ _ _ _ E). simpl. eauto.
  - left. unfold SetNotes, bind.
    rewrite Get_refused by (rewrite E; discriminate). reflexivity.
Qed.

Lemma SetLabels_touchesOnly now (st : Blobs) name labels :
  touchesOnly name st (SetLabels now name labels st).2.
Proof.
  destruct (st !! name) as [v|] eqn:E.
  - destruct v;
      try (left; unfold SetLabels, bind;
           rewrite Get_refused by (rewrite E; discriminate); reflexivity).
    right. rewrite (SetLabels_run _ _ _ _ _ E). simpl. eauto.
  - left. unfold SetLabels, bind.
    rewrite Get_refused by (rewrite E; discriminate). reflexivity.
Qed.

Lemma SetTwofactor_touchesOnly lib now (st : Blobs) name uriOrKey :
  touchesOnly name st (SetTwofactor lib now name uriOrKey st).2.
Proof.
  destruct (st !! name) as [v|] eqn:E.
  - destruct v;
      try (left; unfold SetTwofactor, bind;
           rewrite Get_refused by (rewrite E; discriminate); reflexivity).
    destruct (NewKeyFromURL lib (seedURI lib name uriOrKey)) as [key|] eqn:Hk.
    + right. rewrite (SetTwofactor_run _ _ _ _ _ _ _ E Hk). simpl. eauto.
    + left. now rewrite (SetTwofactor_run_unparsed _ _ _ _ _ _ E Hk).
  - left. unfold SetTwofactor, bind.
    rewrite Get_refused by (rewrite E; discriminate). reflexivity.
Qed.

Lemma touchesOnly_dom name (st st' : Blobs) :
  touchesOnly name st st' → dom st' = dom st.
Proof.
  intros [->|(m & m' & Hm & ->)]; [reflexivity|].
  apply dom_insert_lookup_L. eauto.
Qed.

Lemma touchesOnly_other name other (st st' : Blobs) :
  touchesOnly name st st' → other ≠ name → st' !! other = st !! other.
Proof.
  intros [->|(m & m' & Hm & ->)] Hne; [reflexivity|].
  now apply lookup_insert_ne.
Qed.

(** X2: whatever their arguments and however they end, the four setters
    neither add a name to the store nor remove one. *)
Theorem setters_keep_names
    lib now (st : Blobs) name key val uriOrKey notes labels :
  dom (Set_ now name key val st).2 = dom st
  ∧ dom (SetTwofactor lib now name uriOrKey st).2 = dom st
  ∧ dom (SetNotes now name notes st).2 = dom st
  ∧ dom (SetLabels now name labels st).2 = dom st.
Proof.
  repeat split; eapply touchesOnly_dom;
    eauto using Set_touchesOnly, SetTwofactor_touchesOnly,
      SetNotes_touchesOnly, SetLabels_touchesOnly.
Qed.

(** X3: whatever their arguments and however they end, the four setters
    leave every entry other than the named one as it was. *)
Theorem setters_touch_one_entry
    lib now (st : Blobs) name other key val uriOrKey notes labels :
  other ≠ name →
  (Set_ now name key val st).2 !! other = st !! other
  ∧ (SetTwofactor lib now name uriOrKey st).2 !! other = st !! other
  ∧ (SetNotes now name notes st).2 !! other = st !! other
  ∧ (SetLabels now name labels st).2 !! other = st !! other.
Proof.
  intros Hne.
  repeat split; eapply touchesOnly_other;
    eauto using Set_touchesOnly, SetTwofactor_touchesOnly,
      SetNotes_touchesOnly, SetLabels_touchesOnly.
Qed.

Lemma setters_touch_one_entry_witness :
  "abcx" ≠ "zz/cdy"
  ∧ (Set_ 100 "zz/cdy" "user" "a" searchStore).2 !! "abcx"
    = searchStore !! "abcx"
  ∧ (SetTwofactor sampleLibrary 100 "zz/cdy" "AB" searchStore).2 !! "abcx"
    = searchStore !! "abcx"
  ∧ (SetNotes 100 "zz/cdy" ["n"] searchStore).2 !! "abcx"
    = searchStore !! "abcx"
  ∧ (SetLabels 100 "zz/cdy" ["l"] searchStore).2 !! "abcx"
    = searchStore !! "abcx".
Proof.
  split; [discriminate|].
  apply (setters_touch_one_entry sampleLibrary 100 searchStore "zz/cdy" "abcx"
           "user" "a" "AB" ["n"] ["l"]).
  discriminate.
Defined.

(** ** Notes and labels read back *)

Lemma stringsFrom_ok keyname (l : list value) (out : list string) i :
  stringsFrom keyname i l = (out, None) ↔ l = VString <$> out.
Proof.
  revert out i. induction l as [|v l IH]; intros out i; simpl.
  - split; [intros [= <-]; reflexivity|].
    intros H. symmetry in H. apply fmap_nil_inv in H. now subst.
  - destruct v;
      try (split; [discriminate | destruct out; discriminate]).
    destruct (stringsFrom keyname (S i) l) as [rest [e|]] eqn:E.
    + split; [discriminate|]. destruct out as [|t out]; [discriminate|].
      intros [= -> Hl]. apply (IH out (S i)) in Hl. congruence.
    + split.
      * intros [= <-]. apply IH in E. now subst l.
      * destruct out as [|t out]; [discriminate|].
        intros [= -> Hl]. apply (IH out (S i)) in Hl. congruence.
Qed.

Lemma stringsFrom_first_bad keyname (pre : list string) v rest i :
  isText v = false →
  stringsFrom keyname i ((VString <$> pre) ++ v :: rest)
  = ([], Some (ErrSliceElemFormat keyname (i + length pre)%nat)).
Proof.
  intros Hv. revert i. induction pre as [|s pre IH]; intros i; simpl.
  - rewrite Nat.add_0_r. now destruct v.
  - rewrite IH. do 3 f_equal. lia.
Qed.

(** X4: what [SetNotes] (or [SetLabels]) writes into an existing entry is
    what [Notes] (or [Labels]) reads from it afterwards, without error; and
    writing the labels does not change what [Notes] reads. *)
Theorem SetNotes_SetLabels_read_back now (st : Blobs) name (m : Fields) l :
  st !! name = Some (VMap m) →
  (∃ (st' : Blobs) (blob : Blob),
     SetNotes now name l st = (Returned tt, st')
     ∧ Get name st' = (Returned blob, st')
     ∧ Notes blob = (l, None))
  ∧ (∃ (st' : Blobs) (blob : Blob),
       SetLabels now name l st = (Returned tt, st')
       ∧ Get name st' = (Returned blob, st')
       ∧ Labels blob = (l, None)
       ∧ Notes blob = Notes (mkBlob name m)).
Proof.
  intros Hm. split.
  - exists (<[name := VMap (afterList now keyNotes l m)]> st),
      (mkBlob name (afterList now keyNotes l m)).
    split; [now apply SetNotes_run|].
    split; [apply Get_existing, lookup_insert_eq|].
    unfold Notes, getSlice, index, afterList; cbn [B].
    rewrite lookup_insert_eq. simpl. now apply stringsFrom_ok.
  - exists (<[name := VMap (afterList now keyLabels l m)]> st),
      (mkBlob name (afterList now keyLabels l m)).
    split; [now apply SetLabels_run|].
    split; [apply Get_existing, lookup_insert_eq|].
    unfold Labels, Notes, getSlice, index, afterList; cbn [B Name].
    split.
    + rewrite lookup_insert_eq. simpl. now apply stringsFrom_ok.
    + now rewrite !lookup_insert_ne by discriminate.
Qed.

Lemma SetNotes_SetLabels_read_back_witness :
  emptyEntryStore !! "e" = Some (VMap ∅)
  ∧ (∃ (st' : Blobs) (blob : Blob),
       SetNotes 100 "e" ["pin 1234"; "ask bob"] emptyEntryStore
       = (Returned tt, st')
       ∧ Get "e" st' = (Returned blob, st')
       ∧ Notes blob = (["pin 1234"; "ask bob"], None))
  ∧ (∃ (st' : Blobs) (blob : Blob),
       SetLabels 100 "e" ["pin 1234"; "ask bob"] emptyEntryStore
       = (Returned tt, st')
       ∧ Get "e" st' = (Returned blob, st')
       ∧ Labels blob = (["pin 1234"; "ask bob"], None)
       ∧ Notes blob = Notes (mkBlob "e" ∅)).
Proof.
  split; [reflexivity|].
  apply (SetNotes_SetLabels_read_back 100 emptyEntryStore "e" ∅
           ["pin 1234"; "ask bob"]).
  reflexivity.
Defined.

(** X5: [getSlice] (hence [Notes] and [Labels]) returns a list without
    error exactly when the field is absent or nil, giving the empty list, or
    is a slice of strings only, giving those strings in order. *)
Theorem getSlice_returns (b : Blob) keyname (out : list string) :
  getSlice b keyname = (out, None)
  ↔ (index (B b) keyname = VNil ∧ out = [])
    ∨ index (B b) keyname = VSlice (VString <$> out).
Proof.
  unfold getSlice. destruct (index (B b) keyname) eqn:E;
    try (split; [discriminate | intros [[[=] _]|[=]]]).
  - split; [intros [= <-]; now left | intros [[_ ->]|[=]]; reflexivity].
  - rewrite stringsFrom_ok. split; [intros ->; now right|].
    intros [[[=] _]|[= ->]]. reflexivity.
Qed.

(** X6: when the slice under the key has an element that is not a string,
    [getSlice] returns no list and the error names the position of the
    first such element. *)
Theorem getSlice_first_bad_element
    (b : Blob) keyname (pre : list string) v rest :
  index (B b) keyname = VSlice ((VString <$> pre) ++ v :: rest) →
  isText v = false →
  getSlice b keyname = ([], Some (ErrSliceElemFormat keyname (length pre))).
Proof.
  intros Hidx Hv. unfold getSlice. rewrite Hidx.
  now rewrite (stringsFrom_first_bad _ _ _ _ _ Hv).
Qed.

Lemma getSlice_first_bad_element_witness :
  index mixedNotesEntry keyNotes
  = VSlice ((VString <$> ["a"]) ++ VInt 1 :: [VString "b"])
  ∧ isText (VInt 1) = false
  ∧ getSlice (mkBlob "e" mixedNotesEntry) keyNotes
    = ([], Some (ErrSliceElemFormat keyNotes (length ["a"]))).
Proof.
  split; [reflexivity|]. split; [reflexivity|].
  apply (getSlice_first_bad_element (mkBlob "e" mixedNotesEntry) keyNotes
           ["a"] (VInt 1) [VString "b"]); reflexivity.
Defined.

(** ** The time stamp *)

(** X7: after [SetNotes], [SetLabels] or a successful [SetTwofactor] on an
    existing entry, [Updated] reads the time of the call, whatever the field
    held before; after a successful [Set_] it does so on every entry that is
    not itself named ["updated"]. *)
Theorem setters_stamp_the_entry
    lib now (st : Blobs) name (m : Fields) key val uriOrKey k l :
  st !! name = Some (VMap m) →
  ToLower key ∉ protectedKeys →
  NewKeyFromURL lib (seedURI lib name uriOrKey) = Some k →
  let read (st' : Blobs) := Updated (mkBlob name (live (mkBlob name m) st')) name in
  read (SetNotes now name l st).2 = Some now
  ∧ read (SetLabels now name l st).2 = Some now
  ∧ read (SetTwofactor lib now name uriOrKey st).2 = Some now
  ∧ (name ≠ keyUpdated → read (Set_ now name key val st).2 = Some now).
Proof.
  intros Hm Hkey Hk read. unfold read.
  rewrite (SetNotes_run _ _ _ _ l Hm), (SetLabels_run _ _ _ _ l Hm),
    (SetTwofactor_run _ _ _ _ _ _ _ Hm Hk), (Set_run _ _ _ _ _ val Hm Hkey).
  cbn [snd]. rewrite !live_insert.
  unfold Updated, index, afterList, afterTwoFactor, afterSet; cbn [B].
  repeat split.
  - now rewrite lookup_insert_ne, lookup_insert_eq by discriminate.
  - now rewrite lookup_insert_ne, lookup_insert_eq by discriminate.
  - now rewrite lookup_insert_ne, lookup_insert_eq by discriminate.
  - intros Hne. now rewrite lookup_insert_ne, lookup_insert_eq by congruence.
Qed.

Lemma setters_stamp_the_entry_witness :
  emptyEntryStore !! "e" = Some (VMap ∅)
  ∧ (ToLower "user" ∉ protectedKeys)
  ∧ NewKeyFromURL sampleLibrary (seedURI sampleLibrary "e" "AB") = Some "totp"
  ∧ let read (st' : Blobs) := Updated (mkBlob "e" (live (mkBlob "e" ∅) st')) "e" in
    read (SetNotes 100 "e" ["n"] emptyEntryStore).2 = Some 100
    ∧ read (SetLabels 100 "e" ["n"] emptyEntryStore).2 = Some 100
    ∧ read (SetTwofactor sampleLibrary 100 "e" "AB" emptyEntryStore).2 = Some 100
    ∧ ("e" ≠ keyUpdated → read (Set_ 100 "e" "user" "a" emptyEntryStore).2 = Some 100).
Proof.
  split; [reflexivity|]. split; [compute_done|]. split; [reflexivity|].
  apply (setters_stamp_the_entry sampleLibrary 100 emptyEntryStore "e" ∅
           "user" "a" "AB" "totp" ["n"]);
    [reflexivity | compute_done | reflexivity].
Defined.

(** ** Reading the history *)

(** X8: [Snapshot] returns without error only when [NSnapshots] does, and
    only for an index from 0 up to, and not including, that count. *)
Theorem Snapshot_needs_index_in_range (b snap : Blob) idx :
  Snapshot b idx = (snap, None) →
  (NSnapshots b).2 = None ∧ 0 ≤ idx < (NSnapshots b).1.
Proof.
  unfold Snapshot, NSnapshots.
  destruct (index (B b) keySnapshots); try discriminate.
  destruct (idx <? 0) eqn:Hlo; [discriminate|].
  destruct (idx >=? len l) eqn:Hhi; [discriminate|]. simpl.
  intros _. split; [reflexivity|]. lia.
Qed.

Lemma Snapshot_needs_index_in_range_witness :
  Snapshot (mkBlob "e" oneSnapshotEntry) 0
  = (mkBlob "e:snap0" {[ "user" := VString "old" ]}, None)
  ∧ (NSnapshots (mkBlob "e" oneSnapshotEntry)).2 = None
  ∧ 0 ≤ 0 < (NSnapshots (mkBlob "e" oneSnapshotEntry)).1.
Proof.
  split; [reflexivity|].
  apply (Snapshot_needs_index_in_range (mkBlob "e" oneSnapshotEntry)
           (mkBlob "e:snap0" {[ "user" := VString "old" ]}) 0).
  reflexivity.
Defined.

(** X9: asking for the snapshot whose index is the number of snapshots
    always gives an error, for any entry; when the history is a list, it is
    the out-of-range error carrying that count and the index given. *)
Theorem Snapshot_at_count_fails (b : Blob) :
  (Snapshot b (NSnapshots b).1).2 ≠ None
  ∧ ∀ snaps, index (B b) keySnapshots = VSlice snaps →
             Snapshot b (len snaps)
             = (zeroBlob, Some (ErrSnapshotRange (Name b) (len snaps) (len snaps))).
Proof.
  split.
  - unfold Snapshot, NSnapshots.
    destruct (index (B b) keySnapshots); simpl; try discriminate.
    destruct (len l <? 0); simpl; [discriminate|].
    now rewrite (proj2 (Z.geb_le (len l) (len l)) (Z.le_refl _)).
  - intros snaps Hidx. unfold Snapshot. rewrite Hidx.
    rewrite (proj2 (Z.geb_le (len snaps) (len snaps)) (Z.le_refl _)).
    now rewrite orb_true_r.
Qed.

Lemma Snapshot_latest name (m' : Fields) snaps (s : Fields) :
  index m' keySnapshots = VSlice (snaps ++ [VMap s]) →
  Snapshot (mkBlob name m') 0
  = (mkBlob (name +:+ ":snap" +:+ pretty (len snaps)) s, None).
Proof.
  intros Hidx. unfold Snapshot; cbn [B Name]. rewrite Hidx, len_snoc.
  pose proof (len_nonneg snaps) as Hge.
  destruct (Z.geb_spec 0 (len snaps + 1)) as [?|_]; [lia|]. simpl.
  replace (len snaps + 1 - 1 - 0) with (len snaps) by lia.
  unfold len at 1. rewrite Nat2Z.id.
  now rewrite list_lookup_middle.
Qed.

Lemma Snapshot_older name (m m' : Fields) snaps (s : Fields) idx :
  index m keySnapshots = VSlice snaps →
  index m' keySnapshots = VSlice (snaps ++ [VMap s]) →
  0 ≤ idx < len snaps →
  Snapshot (mkBlob name m') (idx + 1) = Snapshot (mkBlob name m) idx.
Proof.
  intros Hm Hm' Hidx. unfold Snapshot; cbn [B Name]. rewrite Hm, Hm', len_snoc.
  destruct (Z.ltb_spec (idx + 1) 0) as [?|_]; [lia|].
  destruct (Z.geb_spec (idx + 1) (len snaps + 1)) as [?|_]; [lia|].
  destruct (Z.ltb_spec idx 0) as [?|_]; [lia|].
  destruct (Z.geb_spec idx (len snaps)) as [?|_]; [lia|]. simpl.
  replace (len snaps + 1 - 1 - (idx + 1)) with (len snaps - 1 - idx) by lia.
  rewrite lookup_app_l; [reflexivity|]. unfold len in *. lia.
Qed.

(** X10: after a successful [Set_] on an entry that is not itself named
    ["snapshots"], snapshot 0 is the copy of the fields the entry had before
    the call, named after its position from the oldest. *)
Theorem Set_latest_snapshot_is_previous_state
    now (st : Blobs) name (m : Fields) key val :
  st !! name = Some (VMap m) →
  ToLower key ∉ protectedKeys →
  name ≠ keySnapshots →
  ∃ (st' : Blobs) (blob : Blob),
    Set_ now name key val st = (Returned tt, st')
    ∧ Get name st' = (Returned blob, st')
    ∧ Snapshot blob 0
      = (mkBlob (name +:+ ":snap" +:+ pretty (NSnapshots (mkBlob name m)).1)
           (snapshot m), None).
Proof.
  intros Hm Hkey Hns.
  exists (<[name := VMap (afterSet now name val m)]> st),
    (mkBlob name (afterSet now name val m)).
  split; [now apply Set_run|].
  split; [apply Get_existing, lookup_insert_eq|].
  rewrite NSnapshots_priorSnaps. cbn [B].
  apply Snapshot_latest. now apply index_snapshots_afterSet.
Qed.

Lemma Set_latest_snapshot_is_previous_state_witness :
  oneSnapshotStore !! "e" = Some (VMap oneSnapshotEntry)
  ∧ (ToLower "Pin" ∉ protectedKeys)
  ∧ "e" ≠ keySnapshots
  ∧ ∃ (st' : Blobs) (blob : Blob),
      Set_ 100 "e" "Pin" "1234" oneSnapshotStore = (Returned tt, st')
      ∧ Get "e" st' = (Returned blob, st')
      ∧ Snapshot blob 0
        = (mkBlob ("e" +:+ ":snap"
                   +:+ pretty (NSnapshots (mkBlob "e" oneSnapshotEntry)).1)
             (snapshot oneSnapshotEntry), None).
Proof.
  split; [reflexivity|]. split; [compute_done|]. split; [discriminate|].
  apply (Set_latest_snapshot_is_previous_state 100 oneSnapshotStore "e"
           oneSnapshotEntry "Pin" "1234");
    [reflexivity | compute_done | discriminate].
Defined.

(** X11: a successful [Set_] on an entry that is not itself named
    ["snapshots"] keeps the history it found: what was snapshot [idx] before
    the call is snapshot [idx + 1] after it, name included. *)
Theorem Set_keeps_older_snapshots
    now (st : Blobs) name (m : Fields) snaps key val idx :
  st !! name = Some (VMap m) →
  m !! keySnapshots = Some (VSlice snaps) →
  ToLower key ∉ protectedKeys →
  name ≠ keySnapshots →
  0 ≤ idx < len snaps →
  ∃ (st' : Blobs) (blob : Blob),
    Set_ now name key val st = (Returned tt, st')
    ∧ Get name st' = (Returned blob, st')
    ∧ Snapshot blob (idx + 1) = Snapshot (mkBlob name m) idx.
Proof.
  intros Hm Hsnaps Hkey Hns Hidx.
  exists (<[name := VMap (afterSet now name val m)]> st),
    (mkBlob name (afterSet now name val m)).
  split; [now apply Set_run|].
  split; [apply Get_existing, lookup_insert_eq|].
  apply Snapshot_older with snaps (snapshot m); [| |exact Hidx].
  - unfold index. now rewrite Hsnaps.
  - rewrite index_snapshots_afterSet by done.
    unfold priorSnaps. now rewrite Hsnaps.
Qed.

Lemma Set_keeps_older_snapshots_witness :
  oneSnapshotStore !! "e" = Some (VMap oneSnapshotEntry)
  ∧ oneSnapshotEntry !! keySnapshots
    = Some (VSlice [VMap {[ "user" := VString "old" ]}])
  ∧ (ToLower "Pin" ∉ protectedKeys)
  ∧ "e" ≠ keySnapshots
  ∧ 0 ≤ 0 < len [VMap {[ "user" := VString "old" ]}]
  ∧ ∃ (st' : Blobs) (blob : Blob),
      Set_ 100 "e" "Pin" "1234" oneSnapshotStore = (Returned tt, st')
      ∧ Get "e" st' = (Returned blob, st')
      ∧ Snapshot blob (0 + 1) = Snapshot (mkBlob "e" oneSnapshotEntry) 0.
Proof.
  split; [reflexivity|]. split; [reflexivity|]. split; [compute_done|].
  split; [discriminate|]. split; [unfold len; simpl; lia|].
  apply (Set_keeps_older_snapshots 100 oneSnapshotStore "e" oneSnapshotEntry
           [VMap {[ "user" := VString "old" ]}] "Pin" "1234" 0);
    [reflexivity | reflexivity | compute_done | discriminate
    | unfold len; simpl; lia].
Defined.

(** ** What a snapshot holds, continued *)

(** X12: taking a snapshot of a snapshot changes nothing: every field that
    [snapshot] keeps is of a kind that it keeps again. *)
Theorem snapshot_idempotent (m : Fields) : snapshot (snapshot m) = snapshot m.
Proof.
  apply map_eq. intros k. rewrite !snapshot_lookup.
  destruct (m !! k) as [v|]; simpl; [|reflexivity].
  destruct (copyField k v) as [w|] eqn:E; simpl; [|reflexivity].
  apply copyField_Some in E as (Hne & -> & Hkind).
  apply copyField_Some. done.
Qed.

(** ** Two-factor seeds, continued *)

Lemma seedURI_scheme lib name uriOrKey :
  String.prefix "otpauth://" (seedURI lib name uriOrKey) = true.
Proof.
  unfold seedURI.
  destruct (String.prefix "otpauth://" uriOrKey) eqn:E; [exact E | reflexivity].
Qed.

(** X13: a [SetTwofactor] whose URI parses returns no error and writes that
    URI, which always starts with the scheme [otpauth://], to the twofactor
    field; apart from [twofactor], [updated] and [snapshots] every field of
    the entry keeps its value. *)
Theorem SetTwofactor_success lib now (st : Blobs) name (m : Fields) uriOrKey key :
  st !! name = Some (VMap m) →
  NewKeyFromURL lib (seedURI lib name uriOrKey) = Some key →
  ∃ (m' : Fields) (uri : string),
    SetTwofactor lib now name uriOrKey st
    = (Returned None, <[name := VMap m']> st)
    ∧ m' !! keyTwoFactor = Some (VString uri)
    ∧ String.prefix "otpauth://" uri = true
    ∧ (String.prefix "otpauth://" uriOrKey = true → uri = uriOrKey)
    ∧ ∀ k, k ≠ keyTwoFactor → k ≠ keyUpdated → k ≠ keySnapshots →
           m' !! k = m !! k.
Proof.
  intros Hm Hkey.
  exists (afterTwoFactor now (seedURI lib name uriOrKey) m),
    (seedURI lib name uriOrKey).
  split; [now apply SetTwofactor_run with key|].
  split; [apply lookup_insert_eq|].
  split; [apply seedURI_scheme|].
  split; [intros Hp; unfold seedURI; now rewrite Hp|].
  intros k H1 H2 H3. unfold afterTwoFactor.
  now rewrite !lookup_insert_ne by congruence.
Qed.

Lemma SetTwofactor_success_witness :
  emptyEntryStore !! "e" = Some (VMap ∅)
  ∧ NewKeyFromURL sampleLibrary (seedURI sampleLibrary "e" "AB") = Some "totp"
  ∧ ∃ (m' : Fields) (uri : string),
      SetTwofactor sampleLibrary 100 "e" "AB" emptyEntryStore
      = (Returned None, <["e" := VMap m']> emptyEntryStore)
      ∧ m' !! keyTwoFactor = Some (VString uri)
      ∧ String.prefix "otpauth://" uri = true
      ∧ (String.prefix "otpauth://" "AB" = true → uri = "AB")
      ∧ ∀ k, k ≠ keyTwoFactor → k ≠ keyUpdated → k ≠ keySnapshots →
             m' !! k = (∅ : Fields) !! k.
Proof.
  split; [reflexivity|]. split; [reflexivity|].
  apply (SetTwofactor_success sampleLibrary 100 emptyEntryStore "e" ∅ "AB"
           "totp"); reflexivity.
Defined.

(** X14: a [SetTwofactor] whose URI parses records history on every entry,
    whatever its name: the count of snapshots grows by one and snapshot 0 is
    the copy of the fields the entry had before the call. *)
Theorem SetTwofactor_records_previous_state
    lib now (st : Blobs) name (m : Fields) uriOrKey key :
  st !! name = Some (VMap m) →
  NewKeyFromURL lib (seedURI lib name uriOrKey) = Some key →
  ∃ (st' : Blobs) (blob : Blob),
    SetTwofactor lib now name uriOrKey st = (Returned None, st')
    ∧ Get name st' = (Returned blob, st')
    ∧ NSnapshots blob = ((NSnapshots (mkBlob name m)).1 + 1, None)
    ∧ Snapshot blob 0
      = (mkBlob (name +:+ ":snap" +:+ pretty (NSnapshots (mkBlob name m)).1)
           (snapshot m), None).
Proof.
  intros Hm Hkey.
  set (m' := afterTwoFactor now (seedURI lib name uriOrKey) m).
  assert (Hidx : index m' keySnapshots
                 = VSlice (priorSnaps m ++ [VMap (snapshot m)])).
  { unfold index, m', afterTwoFactor.
    rewrite !lookup_insert_ne by discriminate. now rewrite lookup_insert_eq. }
  exists (<[name := VMap m']> st), (mkBlob name m').
  split; [now apply SetTwofactor_run with key|].
  split; [apply Get_existing, lookup_insert_eq|].
  rewrite NSnapshots_priorSnaps. cbn [B]. split.
  - unfold NSnapshots; cbn [B]. now rewrite Hidx, len_snoc.
  - now apply Snapshot_latest.
Qed.

Lemma SetTwofactor_records_previous_state_witness :
  snapshotsNamedStore !! "snapshots" = Some (VMap ∅)
  ∧ NewKeyFromURL sampleLibrary (seedURI sampleLibrary "snapshots" "AB")
    = Some "totp"
  ∧ ∃ (st' : Blobs) (blob : Blob),
      SetTwofactor sampleLibrary 100 "snapshots" "AB" snapshotsNamedStore
      = (Returned None, st')
      ∧ Get "snapshots" st' = (Returned blob, st')
      ∧ NSnapshots blob = ((NSnapshots (mkBlob "snapshots" ∅)).1 + 1, None)
      ∧ Snapshot blob 0
        = (mkBlob ("snapshots" +:+ ":snap"
                   +:+ pretty (NSnapshots (mkBlob "snapshots" ∅)).1)
             (snapshot ∅), None).
Proof.
  split; [reflexivity|]. split; [reflexivity|].
  apply (SetTwofactor_records_previous_state sampleLibrary 100
           snapshotsNamedStore "snapshots" ∅ "AB" "totp"); reflexivity.
Defined.

(** X15: [TwoFactor] hands out a code only in two cases: no seed is stored
    and the code is empty, or the stored text parses to a key of type
    ["totp"] and the code is the one generated from that key's secret. *)
Theorem TwoFactor_code_only_for_totp lib now (b : Blob) code :
  TwoFactor lib now b = Returned (code, None) →
  (index (B b) keyTwoFactor = VNil ∧ code = "")
  ∨ ∃ uri key,
      index (B b) keyTwoFactor = VString uri
      ∧ NewKeyFromURL lib uri = Some key
      ∧ KeyType lib key = "totp"
      ∧ GenerateCode lib (KeySecret lib key) now = Some code.
Proof.
  unfold TwoFactor. destruct (index (B b) keyTwoFactor) eqn:E; try discriminate.
  - intros [= <-]. now left.
  - destruct (NewKeyFromURL lib s) as [key|] eqn:Hk; [|discriminate].
    destruct (String.eqb_spec (KeyType lib key) "totp") as [Ht|_];
      [|discriminate]. simpl.
    destruct (GenerateCode lib (KeySecret lib key) now) as [c|] eqn:Hc;
      [|discriminate].
    intros [= <-]. right. exists s, key. auto.
Qed.

Lemma TwoFactor_code_only_for_totp_witness :
  TwoFactor sampleLibrary 100 (mkBlob "e" totpEntry) = Returned ("000000", None)
  ∧ ((index totpEntry keyTwoFactor = VNil ∧ "000000" = "")
     ∨ ∃ uri key,
         index totpEntry keyTwoFactor = VString uri
         ∧ NewKeyFromURL sampleLibrary uri = Some key
         ∧ KeyType sampleLibrary key = "totp"
         ∧ GenerateCode sampleLibrary (KeySecret sampleLibrary key) 100
           = Some "000000").
Proof.
  split; [reflexivity|].
  apply (TwoFactor_code_only_for_totp sampleLibrary 100 (mkBlob "e" totpEntry)
           "000000"). reflexivity.
Defined.

(** X16: a seed stored by [SetTwofactor] whose URI parses to a key of type
    ["totp"] is the one [TwoFactor] uses afterwards: it hands the secret of
    that key to the code generator and returns the generated code without
    error, or, when the generator refuses the secret, no code and the
    generator's error. *)
Theorem SetTwofactor_then_TwoFactor
    lib now later (st : Blobs) name (m : Fields) uriOrKey key :
  st !! name = Some (VMap m) →
  NewKeyFromURL lib (seedURI lib name uriOrKey) = Some key →
  KeyType lib key = "totp" →
  ∃ (st' : Blobs) (blob : Blob),
    SetTwofactor lib now name uriOrKey st = (Returned None, st')
    ∧ Get name st' = (Returned blob, st')
    ∧ TwoFactor lib later blob
      = match GenerateCode lib (KeySecret lib key) later with
        | Some code => Returned (code, None)
        | None => Returned ("", Some ErrGenerate)
        end.
Proof.
  intros Hm Hkey Htype.
  set (uri := seedURI lib name uriOrKey) in *.
  exists (<[name := VMap (afterTwoFactor now uri m)]> st),
    (mkBlob name (afterTwoFactor now uri m)).
  split; [now apply SetTwofactor_run with key|].
  split; [apply Get_existing, lookup_insert_eq|].
  unfold TwoFactor, index, afterTwoFactor; cbn [B Name].
  rewrite lookup_insert_eq. simpl. rewrite Hkey, Htype. reflexivity.
Qed.

Lemma SetTwofactor_then_TwoFactor_witness :
  emptyEntryStore !! "e" = Some (VMap ∅)
  ∧ NewKeyFromURL refusingLibrary (seedURI refusingLibrary "e" "10189")
    = Some "totp"
  ∧ KeyType refusingLibrary "totp" = "totp"
  ∧ ∃ (st' : Blobs) (blob : Blob),
      SetTwofactor refusingLibrary 100 "e" "10189" emptyEntryStore
      = (Returned None, st')
      ∧ Get "e" st' = (Returned blob, st')
      ∧ TwoFactor refusingLibrary 200 blob
        = match GenerateCode refusingLibrary
                  (KeySecret refusingLibrary "totp") 200 with
          | Some code => Returned (code, None)
          | None => Returned ("", Some ErrGenerate)
          end.
Proof.
  split; [reflexivity|]. split; [reflexivity|]. split; [reflexivity|].
  apply (SetTwofactor_then_TwoFactor refusingLibrary 100 200 emptyEntryStore
           "e" ∅ "10189" "totp"); reflexivity.
Defined.

(** The two ends of that on small stores: a generated code, and a seed
    that is stored although the generator refuses its secret. *)
Example stored_seed_gives_code :
  let st := (SetTwofactor sampleLibrary 100 "e" "AB" emptyEntryStore).2 in
  TwoFactor sampleLibrary 200 (mkBlob "e" (live (mkBlob "e" ∅) st))
  = Returned ("000000", None).
Proof. reflexivity. Qed.

Example stored_seed_refused_by_generator :
  let run := SetTwofactor refusingLibrary 100 "e" "10189" emptyEntryStore in
  run.1 = Returned None
  ∧ TwoFactor refusingLibrary 200 (mkBlob "e" (live (mkBlob "e" ∅) run.2))
    = Returned ("", Some ErrGenerate).
Proof. split; reflexivity. Qed.

(** ** Search, continued *)

Lemma fuzzySubsequence_refl toLower s : fuzzySubsequence toLower s s.
Proof. unfold fuzzySubsequence. reflexivity. Qed.

Lemma fuzzySubsequence_empty toLower s : fuzzySubsequence toLower "" s.
Proof. unfold fuzzySubsequence. apply sublist_nil_l. Qed.

(** X17: the full name of an entry, given as the query, finds that entry,
    whatever the case folding is. *)
Theorem Find_exact_name toLower (b : Blobs) name :
  is_Some (b !! name) → name ∈ Find toLower b name.
Proof.
  intros Hin. apply Find_keyMatches. split; [exact Hin|].
  apply keyMatches_spec. split; [reflexivity|].
  apply Forall_Forall2_diag, Forall_true, fuzzySubsequence_refl.
Qed.

Lemma Find_exact_name_witness :
  is_Some (searchStore !! "zz/cdy")
  ∧ "zz/cdy" ∈ Find lowerRune searchStore "zz/cdy".
Proof.
  split; [eexists; reflexivity|].
  apply (Find_exact_name lowerRune searchStore "zz/cdy"). eexists; reflexivity.
Defined.

(** *** Lower-casing the query *)

Lemma lowerRune_ascii r : r < 128 → lowerRune r < 128.
Proof. unfold lowerRune, inRange. destruct (_ && _)%bool eqn:E; lia. Qed.

Lemma lowerRune_above r : 90 < r → lowerRune r = r.
Proof. unfold lowerRune, inRange. destruct (_ && _)%bool eqn:E; lia. Qed.

Lemma inRange_lowerRune lo hi b :
  128 ≤ lo → inRange lo hi (lowerRune b) = inRange lo hi b.
Proof.
  intros Hlo. unfold lowerRune, inRange.
  destruct (Z.leb_spec 65 b), (Z.leb_spec b 90); simpl; try reflexivity.
  destruct (Z.leb_spec lo (b + 32)), (Z.leb_spec lo b); simpl; lia.
Qed.

Lemma inRange_bounds lo hi b : inRange lo hi b = true → lo ≤ b ≤ hi.
Proof. unfold inRange. lia. Qed.

Lemma second3_lowerRune b0 b1 : second3 b0 (lowerRune b1) = second3 b0 b1.
Proof.
  unfold second3, cont.
  destruct (b0 =? 224); [|destruct (b0 =? 237)];
    now apply inRange_lowerRune.
Qed.

Lemma second4_lowerRune b0 b1 : second4 b0 (lowerRune b1) = second4 b0 b1.
Proof.
  unfold second4, cont.
  destruct (b0 =? 240); [|destruct (b0 =? 244)];
    now apply inRange_lowerRune.
Qed.

Lemma cont_lowerRune b : cont (lowerRune b) = cont b.
Proof. now apply inRange_lowerRune. Qed.

Lemma second3_bounds b0 b1 : second3 b0 b1 = true → 128 ≤ b1 ∧ (b0 = 224 → 160 ≤ b1).
Proof.
  unfold second3, cont.
  destruct (Z.eqb_spec b0 224); [|destruct (Z.eqb_spec b0 237)];
    intros H%inRange_bounds; lia.
Qed.

Lemma second4_bounds b0 b1 : second4 b0 b1 = true → 128 ≤ b1 ∧ (b0 = 240 → 144 ≤ b1).
Proof.
  unfold second4, cont.
  destruct (Z.eqb_spec b0 240); [|destruct (Z.eqb_spec b0 244)];
    intros H%inRange_bounds; lia.
Qed.

Lemma decodeRunes_lowerRune_le n :
  ∀ l, (length l ≤ n)%nat →
       decodeRunes (lowerRune <$> l) = lowerRune <$> decodeRunes l.
Proof.
  induction n as [|n IH]; intros l Hlen.
  { destruct l; [reflexivity | simpl in Hlen; lia]. }
  destruct l as [|b0 l1]; [reflexivity|].
  assert (IH1 := IH l1 ltac:(simpl in Hlen; lia)).
  assert (HE : lowerRune RuneError = RuneError) by reflexivity.
  rewrite fmap_cons. cbn [decodeRunes].
  destruct (Z.ltb_spec b0 128) as [Hb0|Hb0].
  { pose proof (lowerRune_ascii b0 Hb0).
    destruct (Z.ltb_spec (lowerRune b0) 128); [|lia].
    now rewrite fmap_cons, IH1. }
  rewrite (lowerRune_above b0) by lia.
  destruct (Z.ltb_spec b0 128); [lia|].
  destruct l1 as [|b1 l2].
  { reflexivity. }
  assert (IH2 := IH l2 ltac:(simpl in Hlen; lia)).
  rewrite fmap_cons in *. rewrite cont_lowerRune.
  destruct (inRange 194 223 b0 && cont b1)%bool eqn:E2.
  { apply andb_true_iff in E2 as [H0%inRange_bounds H1%inRange_bounds].
    rewrite (lowerRune_above b1) by lia.
    rewrite fmap_cons, IH2, lowerRune_above by lia. reflexivity. }
  destruct l2 as [|b2 l3].
  { now rewrite fmap_cons, <- IH1, HE. }
  assert (IH3 := IH l3 ltac:(simpl in Hlen; lia)).
  rewrite fmap_cons in *. rewrite second3_lowerRune, cont_lowerRune.
  destruct (inRange 224 239 b0 && second3 b0 b1 && cont b2)%bool eqn:E3.
  { apply andb_true_iff in E3 as [E3 H2%inRange_bounds].
    apply andb_true_iff in E3 as [H0%inRange_bounds H1%second3_bounds].
    rewrite (lowerRune_above b1), (lowerRune_above b2) by lia.
    rewrite fmap_cons, IH3, lowerRune_above by lia. reflexivity. }
  destruct l3 as [|b3 l4].
  { now rewrite fmap_cons, <- IH1, HE. }
  assert (IH4 := IH l4 ltac:(simpl in Hlen; lia)).
  rewrite fmap_cons in *. rewrite second4_lowerRune, !cont_lowerRune.
  destruct (inRange 240 244 b0 && second4 b0 b1 && cont b2 && cont b3)%bool
    eqn:E4.
  { apply andb_true_iff in E4 as [E4 H3%inRange_bounds].
    apply andb_true_iff in E4 as [E4 H2%inRange_bounds].
    apply andb_true_iff in E4 as [H0%inRange_bounds H1%second4_bounds].
    rewrite (lowerRune_above b1), (lowerRune_above b2), (lowerRune_above b3)
      by lia.
    rewrite fmap_cons, IH4, lowerRune_above by lia. reflexivity. }
  now rewrite fmap_cons, <- IH1, HE.
Qed.

Lemma byteOf_lowerAscii c : byteOf (lowerAscii c) = lowerRune (byteOf c).
Proof. destruct c as [[] [] [] [] [] [] [] []]; reflexivity. Qed.

Lemma runes_ToLower s : runes (ToLower s) = lowerRune <$> runes s.
Proof.
  unfold runes.
  rewrite <- (decodeRunes_lowerRune_le (length (byteOf <$> chars s))) by lia.
  f_equal. induction s as [|c s IH]; [reflexivity|]. cbn [ToLower chars].
  now rewrite !fmap_cons, byteOf_lowerAscii, IH.
Qed.

Lemma lowerAscii_slash c :
  Ascii.eqb (lowerAscii c) slash = Ascii.eqb c slash.
Proof. destruct c as [[] [] [] [] [] [] [] []]; reflexivity. Qed.

Lemma Split_ToLower s : Split (ToLower s) = ToLower <$> Split s.
Proof.
  induction s as [|c s IH]; simpl; [reflexivity|].
  rewrite lowerAscii_slash, IH.
  destruct (Ascii.eqb c slash); [reflexivity|].
  destruct (Split s); reflexivity.
Qed.

Lemma foldsAscii_lowerRune toLower (r : rune) :
  foldsAscii toLower → toLower (lowerRune r) = toLower r.
Proof.
  intros Hfold. unfold lowerRune at 1.
  destruct (inRange 65 90 r) eqn:E; [|reflexivity].
  apply inRange_bounds in E.
  rewrite (Hfold (r + 32)), (Hfold r) by lia.
  rewrite (lowerRune_above (r + 32)) by lia.
  unfold lowerRune, inRange.
  destruct (Z.leb_spec 65 r), (Z.leb_spec r 90); simpl; lia.
Qed.

Lemma fuzzySubsequence_ToLower toLower query candidate :
  foldsAscii toLower →
  fuzzySubsequence toLower (ToLower query) candidate
  ↔ fuzzySubsequence toLower query candidate.
Proof.
  intros Hfold. unfold fuzzySubsequence.
  rewrite runes_ToLower, <- list_fmap_compose.
  rewrite (list_fmap_ext (toLower ∘ lowerRune) toLower (runes query));
    [reflexivity|].
  intros i r _. now apply foldsAscii_lowerRune.
Qed.

(** X18: for every folding that lower-cases the ASCII letters, the case of
    the ASCII letters of the query does not matter: the query with these
    letters lower-cased finds the same names as the query itself, so that
    ["WORK/EMAIL"], like ["work/email"], finds the entry ["Work/EMail"]. *)
Theorem Find_ignores_query_case toLower :
  foldsAscii toLower →
  (∀ (b : Blobs) search name,
     name ∈ Find toLower b (ToLower search) ↔ name ∈ Find toLower b search)
  ∧ ToLower "WORK/EMAIL" = "work/email"
  ∧ Find toLower caseStore "WORK/EMAIL" = ["Work/EMail"]
  ∧ Find toLower caseStore "work/email" = ["Work/EMail"].
Proof.
  intros Hfold. split.
  - intros b search name.
    rewrite !Find_keyMatches, !keyMatches_spec, Split_ToLower, length_fmap.
    rewrite Forall2_fmap_l.
    split; intros (Hin & Hlen & Hall); (split; [exact Hin|]);
      (split; [exact Hlen|]);
      (eapply Forall2_impl; [exact Hall|]);
      intros q c Hqc; now apply (fuzzySubsequence_ToLower toLower q c Hfold).
  - split; [reflexivity|].
    rewrite !(Find_ascii toLower _ _ Hfold) by reflexivity.
    split; reflexivity.
Qed.

Lemma Find_ignores_query_case_witness :
  foldsAscii lowerRune
  ∧ (∀ (b : Blobs) search name,
       name ∈ Find lowerRune b (ToLower search)
       ↔ name ∈ Find lowerRune b search)
  ∧ ToLower "WORK/EMAIL" = "work/email"
  ∧ Find lowerRune caseStore "WORK/EMAIL" = ["Work/EMail"]
  ∧ Find lowerRune caseStore "work/email" = ["Work/EMail"].
Proof.
  split; [intros r _; reflexivity|].
  apply (Find_ignores_query_case lowerRune). intros r _; reflexivity.
Defined.

Lemma Split_one_segment s : length (Split s) = 1%nat ↔ slash ∉ chars s.
Proof.
  split; [|intros H; now rewrite (Split_no_slash _ H)].
  induction s as [|c s IH]; simpl; [intros _; apply not_elem_of_nil|].
  pose proof (Split_not_nil s) as Hne.
  destruct (Ascii.eqb_spec c slash) as [->|Hc].
  - simpl. destruct (Split s); [contradiction | discriminate].
  - destruct (Split s) as [|h t]; [contradiction|]. simpl in *.
    intros Hlen. rewrite not_elem_of_cons. split; [congruence|].
    now apply IH.
Qed.

(** X19: the empty query finds exactly the names of the store in which no
    [/] occurs. *)
Theorem Find_empty_query toLower (b : Blobs) name :
  name ∈ Find toLower b "" ↔ is_Some (b !! name) ∧ slash ∉ chars name.
Proof.
  rewrite Find_keyMatches, keyMatches_spec, <- Split_one_segment. simpl. split.
  - intros (Hin & Hlen & _). done.
  - intros (Hin & Hlen). split; [exact Hin|]. split; [exact Hlen|].
    destruct (Split name) as [|seg [|? ?]]; try discriminate.
    repeat constructor. apply fuzzySubsequence_empty.
Qed.

(** X20: [Find] lists no name twice, and only names of the store. *)
Theorem Find_no_duplicates toLower (b : Blobs) search :
  NoDup (Find toLower b search)
  ∧ ∀ name, name ∈ Find toLower b search → name ∈ dom b.
Proof.
  split.
  - unfold Find. apply NoDup_ListNoDup, List.NoDup_filter, NoDup_ListNoDup.
    apply NoDup_fst_map_to_list.
  - intros name Hin. apply Find_keyMatches in Hin as [Hin _].
    now apply elem_of_dom.
Qed.

(** The search at work: with the ASCII folding, the empty query and a
    query that is not ASCII; the runes of ["é"] are not those of ["ç©"],
    although its bytes are among the bytes of the latter. *)
Example Find_empty_query_on_searchStore :
  Find lowerRune searchStore "" = ["abcx"].
Proof. reflexivity. Qed.

Example decodeRunes_samples :
  runes "a/Z" = [97; 47; 90]
  ∧ runes "€" = [8364]
  ∧ decodeRunes [240; 159; 152; 128] = [128512]
  ∧ decodeRunes [195] = [RuneError]
  ∧ decodeRunes [226; 130] = [RuneError; RuneError]
  ∧ decodeRunes [192; 128] = [RuneError; RuneError]
  ∧ decodeRunes [237; 160; 128] = [RuneError; RuneError; RuneError]
  ∧ decodeRunes [255; 97] = [RuneError; 97].
Proof. repeat split. Qed.

Example Find_compares_runes :
  runes "é" = [233] ∧ runes "ç©" = [231; 169]
  ∧ Find lowerRune accentStore "é" = []
  ∧ Find lowerRune accentStore "ç" = ["ç©"].
Proof. repeat split. Qed.

(** ** Credentials under the other setters *)

(** X21: [SetNotes], [SetLabels] and a [SetTwofactor] whose URI parses do
    not change what [User] and [Pass] give for the entry. *)
Theorem credentials_survive_other_setters
    lib now (st : Blobs) name (m : Fields) l uriOrKey key :
  st !! name = Some (VMap m) →
  NewKeyFromURL lib (seedURI lib name uriOrKey) = Some key →
  let before := mkBlob name m in
  let after (st' : Blobs) := mkBlob name (live before st') in
  (User (after (SetNotes now name l st).2) = User before
   ∧ Pass (after (SetNotes now name l st).2) = Pass before)
  ∧ (User (after (SetLabels now name l st).2) = User before
     ∧ Pass (after (SetLabels now name l st).2) = Pass before)
  ∧ (User (after (SetTwofactor lib now name uriOrKey st).2) = User before
     ∧ Pass (after (SetTwofactor lib now name uriOrKey st).2) = Pass before).
Proof.
  intros Hm Hkey before after. unfold after, before.
  rewrite (SetNotes_run _ _ _ _ l Hm), (SetLabels_run _ _ _ _ l Hm),
    (SetTwofactor_run _ _ _ _ _ _ _ Hm Hkey).
  cbn [snd]. rewrite !live_insert.
  unfold User, Pass, afterList, afterTwoFactor; cbn [B].
  now rewrite !lookup_insert_ne by discriminate.
Qed.

Lemma credentials_survive_other_setters_witness :
  oneSnapshotStore !! "e" = Some (VMap oneSnapshotEntry)
  ∧ NewKeyFromURL sampleLibrary (seedURI sampleLibrary "e" "AB") = Some "totp"
  ∧ let before := mkBlob "e" oneSnapshotEntry in
    let after (st' : Blobs) := mkBlob "e" (live before st') in
    (User (after (SetNotes 100 "e" ["n"] oneSnapshotStore).2) = User before
     ∧ Pass (after (SetNotes 100 "e" ["n"] oneSnapshotStore).2) = Pass before)
    ∧ (User (after (SetLabels 100 "e" ["n"] oneSnapshotStore).2) = User before
       ∧ Pass (after (SetLabels 100 "e" ["n"] oneSnapshotStore).2) = Pass before)
    ∧ (User (after (SetTwofactor sampleLibrary 100 "e" "AB" oneSnapshotStore).2)
       = User before
       ∧ Pass (after (SetTwofactor sampleLibrary 100 "e" "AB" oneSnapshotStore).2)
         = Pass before).
Proof.
  split; [reflexivity|]. split; [reflexivity|].
  apply (credentials_survive_other_setters sampleLibrary 100 oneSnapshotStore
           "e" oneSnapshotEntry ["n"] "AB" "totp"); reflexivity.
Defined.
